(** * The STM32F7 QSPI flash driver: qspi-flash.cpp and qspi-winbond.cpp

    A shallow embedding of the driver's member functions.  The RTOS
    primitives (mutex, semaphore), the HAL of the QUADSPI peripheral and the
    allocator are the driver's environment: every call to them is recorded in
    a log, and its status is chosen by a [world] that sees the whole history.
    Theorems quantify over the world, so they hold for every behaviour of the
    hardware. *)

From Stdlib Require Import ZArith List Lia Bool.
From Equations Require Import Equations.
Import ListNotations.
Local Open Scope Z_scope.

(** ** Machine integers *)

(** [uint32_t] and [size_t] (32 bits on the Cortex-M7) wrap modulo 2^32,
    [uint8_t] modulo 2^8. *)
Definition uint32 (x : Z) : Z := x mod 2 ^ 32.
Definition uint8 (x : Z) : Z := x mod 2 ^ 8.

(** ** The HAL's command descriptors (stm32f7xx_hal_qspi.h) *)

Inductive address_size :=
  QSPI_ADDRESS_8_BITS | QSPI_ADDRESS_16_BITS | QSPI_ADDRESS_24_BITS
| QSPI_ADDRESS_32_BITS.
Inductive instruction_mode :=
  QSPI_INSTRUCTION_NONE | QSPI_INSTRUCTION_1_LINE | QSPI_INSTRUCTION_2_LINES
| QSPI_INSTRUCTION_4_LINES.
Inductive address_mode :=
  QSPI_ADDRESS_NONE | QSPI_ADDRESS_1_LINE | QSPI_ADDRESS_2_LINES
| QSPI_ADDRESS_4_LINES.
Inductive alternate_byte_mode :=
  QSPI_ALTERNATE_BYTES_NONE | QSPI_ALTERNATE_BYTES_1_LINE
| QSPI_ALTERNATE_BYTES_2_LINES | QSPI_ALTERNATE_BYTES_4_LINES.
Inductive alternate_bytes_size :=
  QSPI_ALTERNATE_BYTES_8_BITS | QSPI_ALTERNATE_BYTES_16_BITS
| QSPI_ALTERNATE_BYTES_24_BITS | QSPI_ALTERNATE_BYTES_32_BITS.
Inductive data_mode :=
  QSPI_DATA_NONE | QSPI_DATA_1_LINE | QSPI_DATA_2_LINES | QSPI_DATA_4_LINES.
Inductive ddr_mode := QSPI_DDR_MODE_DISABLE | QSPI_DDR_MODE_ENABLE.
Inductive ddr_hold := QSPI_DDR_HHC_ANALOG_DELAY | QSPI_DDR_HHC_HALF_CLK_DELAY.
Inductive sioo_mode := QSPI_SIOO_INST_EVERY_CMD | QSPI_SIOO_INST_ONLY_FIRST_CMD.
Inductive match_mode := QSPI_MATCH_MODE_AND | QSPI_MATCH_MODE_OR.
Inductive automatic_stop :=
  QSPI_AUTOMATIC_STOP_DISABLE | QSPI_AUTOMATIC_STOP_ENABLE.
Inductive timeout_activation :=
  QSPI_TIMEOUT_COUNTER_DISABLE | QSPI_TIMEOUT_COUNTER_ENABLE.

(** [QSPI_CommandTypeDef sCommand;] is declared without an initialiser: a
    field holds [None] until the code assigns it. *)
Record QSPI_CommandTypeDef := mkCommand {
  Instruction : option Z;
  Address : option Z;
  AlternateBytes : option Z;
  AddressSize : option address_size;
  AlternateBytesSize : option alternate_bytes_size;
  DummyCycles : option Z;
  InstructionMode : option instruction_mode;
  AddressMode : option address_mode;
  AlternateByteMode : option alternate_byte_mode;
  DataMode : option data_mode;
  NbData : option Z;
  DdrMode : option ddr_mode;
  DdrHoldHalfCycle : option ddr_hold;
  SIOOMode : option sioo_mode
}.

Definition sCommand_declared : QSPI_CommandTypeDef :=
  mkCommand None None None None None None None None None None None None None
    None.

Definition set_Instruction (v : Z) (c : QSPI_CommandTypeDef) :=
  mkCommand (Some v) (Address c) (AlternateBytes c) (AddressSize c)
    (AlternateBytesSize c) (DummyCycles c) (InstructionMode c)
    (AddressMode c) (AlternateByteMode c) (DataMode c) (NbData c)
    (DdrMode c) (DdrHoldHalfCycle c) (SIOOMode c).
Definition set_Address (v : Z) (c : QSPI_CommandTypeDef) :=
  mkCommand (Instruction c) (Some v) (AlternateBytes c) (AddressSize c)
    (AlternateBytesSize c) (DummyCycles c) (InstructionMode c)
    (AddressMode c) (AlternateByteMode c) (DataMode c) (NbData c)
    (DdrMode c) (DdrHoldHalfCycle c) (SIOOMode c).
Definition set_AddressSize (v : address_size) (c : QSPI_CommandTypeDef) :=
  mkCommand (Instruction c) (Address c) (AlternateBytes c) (Some v)
    (AlternateBytesSize c) (DummyCycles c) (InstructionMode c)
    (AddressMode c) (AlternateByteMode c) (DataMode c) (NbData c)
    (DdrMode c) (DdrHoldHalfCycle c) (SIOOMode c).
Definition set_AlternateBytesSize (v : alternate_bytes_size) (c : QSPI_CommandTypeDef) :=
  mkCommand (Instruction c) (Address c) (AlternateBytes c) (AddressSize c)
    (Some v) (DummyCycles c) (InstructionMode c)
    (AddressMode c) (AlternateByteMode c) (DataMode c) (NbData c)
    (DdrMode c) (DdrHoldHalfCycle c) (SIOOMode c).
Definition set_DummyCycles (v : Z) (c : QSPI_CommandTypeDef) :=
  mkCommand (Instruction c) (Address c) (AlternateBytes c) (AddressSize c)
    (AlternateBytesSize c) (Some v) (InstructionMode c)
    (AddressMode c) (AlternateByteMode c) (DataMode c) (NbData c)
    (DdrMode c) (DdrHoldHalfCycle c) (SIOOMode c).
Definition set_InstructionMode (v : instruction_mode) (c : QSPI_CommandTypeDef) :=
  mkCommand (Instruction c) (Address c) (AlternateBytes c) (AddressSize c)
    (AlternateBytesSize c) (DummyCycles c) (Some v)
    (AddressMode c) (AlternateByteMode c) (DataMode c) (NbData c)
    (DdrMode c) (DdrHoldHalfCycle c) (SIOOMode c).
Definition set_AddressMode (v : address_mode) (c : QSPI_CommandTypeDef) :=
  mkCommand (Instruction c) (Address c) (AlternateBytes c) (AddressSize c)
    (AlternateBytesSize c) (DummyCycles c) (InstructionMode c)
    (Some v) (AlternateByteMode c) (DataMode c) (NbData c)
    (DdrMode c) (DdrHoldHalfCycle c) (SIOOMode c).
Definition set_AlternateByteMode (v : alternate_byte_mode) (c : QSPI_CommandTypeDef) :=
  mkCommand (Instruction c) (Address c) (AlternateBytes c) (AddressSize c)
    (AlternateBytesSize c) (DummyCycles c) (InstructionMode c)
    (AddressMode c) (Some v) (DataMode c) (NbData c)
    (DdrMode c) (DdrHoldHalfCycle c) (SIOOMode c).
Definition set_DataMode (v : data_mode) (c : QSPI_CommandTypeDef) :=
  mkCommand (Instruction c) (Address c) (AlternateBytes c) (AddressSize c)
    (AlternateBytesSize c) (DummyCycles c) (InstructionMode c)
    (AddressMode c) (AlternateByteMode c) (Some v) (NbData c)
    (DdrMode c) (DdrHoldHalfCycle c) (SIOOMode c).
Definition set_NbData (v : Z) (c : QSPI_CommandTypeDef) :=
  mkCommand (Instruction c) (Address c) (AlternateBytes c) (AddressSize c)
    (AlternateBytesSize c) (DummyCycles c) (InstructionMode c)
    (AddressMode c) (AlternateByteMode c) (DataMode c) (Some v)
    (DdrMode c) (DdrHoldHalfCycle c) (SIOOMode c).
Definition set_DdrMode (v : ddr_mode) (c : QSPI_CommandTypeDef) :=
  mkCommand (Instruction c) (Address c) (AlternateBytes c) (AddressSize c)
    (AlternateBytesSize c) (DummyCycles c) (InstructionMode c)
    (AddressMode c) (AlternateByteMode c) (DataMode c) (NbData c)
    (Some v) (DdrHoldHalfCycle c) (SIOOMode c).
Definition set_DdrHoldHalfCycle (v : ddr_hold) (c : QSPI_CommandTypeDef) :=
  mkCommand (Instruction c) (Address c) (AlternateBytes c) (AddressSize c)
    (AlternateBytesSize c) (DummyCycles c) (InstructionMode c)
    (AddressMode c) (AlternateByteMode c) (DataMode c) (NbData c)
    (DdrMode c) (Some v) (SIOOMode c).
Definition set_SIOOMode (v : sioo_mode) (c : QSPI_CommandTypeDef) :=
  mkCommand (Instruction c) (Address c) (AlternateBytes c) (AddressSize c)
    (AlternateBytesSize c) (DummyCycles c) (InstructionMode c)
    (AddressMode c) (AlternateByteMode c) (DataMode c) (NbData c)
    (DdrMode c) (DdrHoldHalfCycle c) (Some v).

(** [sCommand.F = v;] reads [sCommand <| set_F v] below. *)
Notation "c <| f" := (f c) (at level 45, left associativity, only parsing).

Record QSPI_AutoPollingTypeDef := mkAutoPolling {
  Match : Z;
  Mask : Z;
  Interval : Z;
  StatusBytesSize : Z;
  MatchMode : match_mode;
  AutomaticStop : automatic_stop
}.

(** Only [TimeOutActivation] is assigned by the driver. *)
Record QSPI_MemoryMappedTypeDef := mkMemoryMapped {
  TimeOutPeriod : option Z;
  TimeOutActivation : option timeout_activation
}.

(** ** The driver's environment *)

(** What [HAL_QSPI_Transmit] is handed: the caller's buffer, named by its
    address in RAM, or the address of the local byte [datareg], named by the
    value it holds at the call. *)
Inductive tx_source :=
| caller_buffer (buff : Z)
| local_datareg (value : Z).

Inductive call :=
| mutex_timed_lock (timeout : Z)
| mutex_unlock
| semaphore_timed_wait (timeout : Z)
| HAL_QSPI_Abort
| HAL_QSPI_Command (cmd : QSPI_CommandTypeDef) (timeout : Z)
| HAL_QSPI_Receive (timeout : Z)
| HAL_QSPI_Receive_IT
| HAL_QSPI_Transmit (pData : tx_source) (timeout : Z)
| HAL_QSPI_AutoPolling_IT (cmd : QSPI_CommandTypeDef)
    (cfg : QSPI_AutoPollingTypeDef)
| HAL_QSPI_MemoryMapped (cmd : QSPI_CommandTypeDef)
    (cfg : QSPI_MemoryMappedTypeDef)
| new_qspi_winbond
| qspi_page_write (address buff count : Z).

(** A log entry: the call and whether it reported [rtos::result::ok] or
    [HAL_OK]. *)
Definition event : Type := call * bool.

(** The world decides the status of every call from the history so far, and
    what the peripheral has stored in the receive buffer by then. *)
Record world := mkWorld {
  status : list event -> call -> bool;
  received : list event -> nat -> Z
}.

(** ** The [qspi] object and the driver's monad *)

(** The data members the sources read or write.  [pimpl] is [None] for a
    null pointer and [Some n] for the [n]-th [qspi_winbond] object built by
    [new] (objects are numbered from 0 in construction order). *)
Record qspi := mkQspi {
  manufacturer_ID_ : Z;
  memory_type_ : Z;
  memory_capacity_ : Z;
  valid_mem_ID : bool;
  pimpl : option nat
}.

Record machine := mkMachine {
  this : qspi;
  log : list event
}.

Definition M (A : Type) : Type := world -> machine -> A * machine.

Definition ret {A} (a : A) : M A := fun _ m => (a, m).
Definition bind {A B} (c : M A) (k : A -> M B) : M B :=
  fun w m => let (a, m') := c w m in k a w m'.

Notation "x <- c ;; k" := (bind c (fun x => k))
  (at level 61, c at next level, right associativity).
Notation "c ;; k" := (bind c (fun _ => k))
  (at level 61, right associativity).

(** A call to the environment: the world picks the status, the log grows. *)
Definition env (c : call) : M bool := fun w m =>
  let ok := status w (log m) c in
  (ok, mkMachine (this m) (log m ++ [(c, ok)])).

(** Reading byte [i] of the receive buffer ([buff[i]], [datareg]). *)
Definition rx (i : nat) : M Z := fun w m => (uint8 (received w (log m) i), m).

Definition get_this : M qspi := fun _ m => (this m, m).
Definition put_this (q : qspi) : M unit := fun _ m => (tt, mkMachine q (log m)).

Definition objects_constructed (l : list event) : nat :=
  length (filter (fun e => match fst e with new_qspi_winbond => true
                           | _ => false end) l).

(** [new qspi_winbond {}]: a fresh object; the allocation is logged. *)
Definition new_winbond : M nat := fun _ m =>
  (objects_constructed (log m),
   mkMachine (this m) (log m ++ [(new_qspi_winbond, true)])).

Definition run {A} (c : M A) (w : world) (m : machine) : A * machine := c w m.
Definition result_of {A} (c : M A) w m : A := fst (c w m).
Definition state_after {A} (c : M A) w m : machine := snd (c w m).
(** The calls a computation adds to the log. *)
Definition trace_of {A} (c : M A) w m : list event :=
  skipn (length (log m)) (log (snd (c w m))).

(** ** Constants of qspi-flash.h *)

(** Modelled from the spec: qspi-flash.h, which declares class [qspi] with
    its opcode and time-out constants, is not among the sources.  The
    constants the two .cpp files name are the fields of this class; the spec
    fixes no value for them ("fixed opcode set (vendor/JEDEC standard)", "the
    chip-erase bound must be the longest of all bounds, sector/block bounds
    are shorter"), so the driver is modelled for any header. *)
Class qspi_flash_h := mkHeader {
  JEDEC_ID : Z;
  WRITE_ENABLE : Z;
  READ_STATUS_REGISTER : Z;
  FAST_READ_QUAD_OUT : Z;
  QUAD_PAGE_PROGRAM : Z;
  SECTOR_ERASE : Z;
  BLOCK_32K_ERASE : Z;
  BLOCK_64K_ERASE : Z;
  CHIP_ERASE : Z;
  QSPI_TIMEOUT : Z;
  QSPI_ERASE_TIMEOUT : Z;
  QSPI_CHIP_ERASE_TIMEOUT : Z
}.



(** Modelled from the spec: a header with the JEDEC/Winbond opcodes and
    time-outs in the spec's order, to run the model on concrete inputs. *)
Definition jedec_header : qspi_flash_h :=
  mkHeader 0x9F 0x06 0x05 0x6B 0x32 0x20 0x52 0xD8 0xC7 100 2000 200000.

(** Winbond specific commands (qspi-winbond.h). *)
Definition VOLATILE_SR_WRITE_ENABLE : Z := 0x50.
Definition READ_STATUS_REGISTER_2 : Z := 0x35.
Definition WRITE_STATUS_REGISTER_2 : Z := 0x31.
Definition READ_STATUS_REGISTER_3 : Z := 0x15.
Definition WRITE_STATUS_REGISTER_3 : Z := 0x11.

(** ** qspi-flash.cpp *)

Section Driver.
Context {h : qspi_flash_h}.

(** [qspi::read_JEDEC_ID]. *)
Definition read_JEDEC_ID : M bool :=
  let result := false in
  locked <- env (mutex_timed_lock QSPI_TIMEOUT) ;;
  if locked then
    (* Read command settings *)
    let sCommand := sCommand_declared
      <| set_AddressSize QSPI_ADDRESS_24_BITS
      <| set_AlternateByteMode QSPI_ALTERNATE_BYTES_NONE
      <| set_DdrMode QSPI_DDR_MODE_DISABLE
      <| set_DdrHoldHalfCycle QSPI_DDR_HHC_ANALOG_DELAY
      <| set_SIOOMode QSPI_SIOO_INST_EVERY_CMD
      <| set_InstructionMode QSPI_INSTRUCTION_1_LINE
      <| set_AddressMode QSPI_ADDRESS_NONE
      <| set_DataMode QSPI_DATA_1_LINE
      <| set_DummyCycles 0
      <| set_NbData 3
      <| set_Instruction JEDEC_ID in
    env HAL_QSPI_Abort ;;
    (* Initiate read and wait for the event *)
    result <-
      (cmd_ok <- env (HAL_QSPI_Command sCommand QSPI_TIMEOUT) ;;
       if cmd_ok then
         rx_ok <- env HAL_QSPI_Receive_IT ;;
         if rx_ok then
           posted <- env (semaphore_timed_wait QSPI_TIMEOUT) ;;
           if posted then
             buff0 <- rx 0 ;;
             q <- get_this ;;
             put_this (mkQspi buff0 (memory_type_ q) (memory_capacity_ q)
                         (valid_mem_ID q) (pimpl q)) ;;
             buff1 <- rx 1 ;;
             q <- get_this ;;
             put_this (mkQspi (manufacturer_ID_ q) buff1 (memory_capacity_ q)
                         (valid_mem_ID q) (pimpl q)) ;;
             buff2 <- rx 2 ;;
             q <- get_this ;;
             put_this (mkQspi (manufacturer_ID_ q) (memory_type_ q) buff2
                         (valid_mem_ID q) (pimpl q)) ;;
             q <- get_this ;;
             put_this (mkQspi (manufacturer_ID_ q) (memory_type_ q)
                         (memory_capacity_ q) true (pimpl q)) ;;
             ret true
           else ret result
         else ret result
       else ret result) ;;
    (if negb result then env HAL_QSPI_Abort ;; ret tt else ret tt) ;;
    env mutex_unlock ;;
    ret result
  else ret result.

(** [qspi::get_ID_data].  The three reference parameters are passed in and
    handed back with the result. *)
Definition get_ID_data (manufacturer_ID memory_type memory_capacity : Z)
  : M (bool * (Z * Z * Z)) :=
  let result := false in
  q <- get_this ;;
  if valid_mem_ID q then
    let manufacturer_ID := manufacturer_ID_ q in
    let memory_type := memory_type_ q in
    let memory_capacity := memory_capacity_ q in
    p <- new_winbond ;;
    q <- get_this ;;
    put_this (mkQspi (manufacturer_ID_ q) (memory_type_ q)
                (memory_capacity_ q) (valid_mem_ID q) (Some p)) ;;
    ret (true, (manufacturer_ID, memory_type, memory_capacity))
  else ret (result, (manufacturer_ID, memory_type, memory_capacity)).

(** The chunk length [qspi::write] computes at the top of its loop body. *)
Definition in_block_count (address count : Z) : Z :=
  let in_block_count := uint32 (0x100 - Z.land address 0xFF) in
  if in_block_count >? count then count
  else if in_block_count =? 0 then
    (if count >? 0x100 then 0x100 else count)
  else in_block_count.

(** Which of the three arms of that [if] chain runs. *)
Inductive write_arm := arm_clamp_to_count | arm_zero_room | arm_keep.
Definition arm_taken (address count : Z) : write_arm :=
  let in_block_count := uint32 (0x100 - Z.land address 0xFF) in
  if in_block_count >? count then arm_clamp_to_count
  else if in_block_count =? 0 then arm_zero_room
  else arm_keep.

Section Write.
(** [qspi::page_write] is declared in qspi-flash.h; [write] is modelled
    for any callee. *)
Variable page_write : Z -> Z -> Z -> M bool.

(** The [do ... while (count)] loop of [qspi::write]. *)
Equations? write_loop (address buff count : Z) : M bool
  by wf (Z.to_nat count) lt :=
write_loop address buff count :=
  let in_block_count := in_block_count address count in
  ok <- page_write address buff in_block_count ;;
  if negb ok then ret false
  else
    match Z.eq_dec (uint32 (count - in_block_count)) 0 with
    | left _ => ret true
    | right _ =>
        write_loop (uint32 (address + in_block_count))
          (buff + in_block_count) (uint32 (count - in_block_count))
    end.
Proof.
  clear write_loop.
  subst in_block_count0. unfold in_block_count in *.
  assert (Hland : 0 <= Z.land address 255 < 256).
  { change 255 with (Z.ones 8). rewrite Z.land_ones by lia.
    apply Z.mod_pos_bound. lia. }
  assert (Hroom : uint32 (256 - Z.land address 255)
                  = 256 - Z.land address 255).
  { unfold uint32. apply Z.mod_small. lia. }
  rewrite Hroom in *.
  destruct (Z.gtb_spec (256 - Z.land address 255) count).
  - rewrite Z.sub_diag in n. now elim n.
  - destruct (Z.eqb_spec (256 - Z.land address 255) 0); [lia|].
    assert (0 <= uint32 (count - (256 - Z.land address 255))
            <= count - (256 - Z.land address 255)).
    { unfold uint32. split; [apply Z.mod_pos_bound; lia|].
      apply Z.mod_le; lia. }
    lia.
Qed.

(** [qspi::write]. *)
Definition write (address buff count : Z) : M bool :=
  env HAL_QSPI_Abort ;;
  write_loop address buff count.
End Write.

(** [qspi::erase]. *)
Definition erase (address which : Z) : M bool :=
  let result := false in
  locked <- env (mutex_timed_lock QSPI_TIMEOUT) ;;
  if locked then
    (* Initial command settings *)
    let sCommand := sCommand_declared
      <| set_AddressSize QSPI_ADDRESS_24_BITS
      <| set_AlternateByteMode QSPI_ALTERNATE_BYTES_NONE
      <| set_DdrMode QSPI_DDR_MODE_DISABLE
      <| set_DdrHoldHalfCycle QSPI_DDR_HHC_ANALOG_DELAY
      <| set_SIOOMode QSPI_SIOO_INST_EVERY_CMD
      <| set_InstructionMode QSPI_INSTRUCTION_1_LINE
      <| set_AddressMode QSPI_ADDRESS_NONE
      <| set_DataMode QSPI_DATA_NONE
      <| set_DummyCycles 0 in
    env HAL_QSPI_Abort ;;
    (* Enable write *)
    let sCommand := sCommand <| set_Instruction WRITE_ENABLE in
    result <-
      (we_ok <- env (HAL_QSPI_Command sCommand QSPI_TIMEOUT) ;;
       if we_ok then
         (* Initiate erase *)
         let sCommand := sCommand
           <| set_Instruction which
           <| set_AddressMode (if which =? CHIP_ERASE then QSPI_ADDRESS_NONE
                               else QSPI_ADDRESS_1_LINE)
           <| set_DataMode QSPI_DATA_NONE
           <| set_Address address in
         cmd_ok <- env (HAL_QSPI_Command sCommand QSPI_TIMEOUT) ;;
         if cmd_ok then
           (* Set auto-polling and wait for the event *)
           let sCommand := sCommand
             <| set_Instruction READ_STATUS_REGISTER
             <| set_AddressMode QSPI_ADDRESS_NONE
             <| set_DataMode QSPI_DATA_1_LINE in
           let sConfig :=
             mkAutoPolling 0 1 0x10 1 QSPI_MATCH_MODE_AND
               QSPI_AUTOMATIC_STOP_ENABLE in
           poll_ok <- env (HAL_QSPI_AutoPolling_IT sCommand sConfig) ;;
           if poll_ok then
             posted <- env (semaphore_timed_wait
                              (if which =? CHIP_ERASE
                               then QSPI_CHIP_ERASE_TIMEOUT
                               else QSPI_ERASE_TIMEOUT)) ;;
             if posted then ret true else ret result
           else ret result
         else ret result
       else ret result) ;;
    (if negb result then env HAL_QSPI_Abort ;; ret tt else ret tt) ;;
    env mutex_unlock ;;
    ret result
  else ret result.

(** ** qspi-winbond.cpp *)

(** [qspi_winbond::mode_quad]. *)
Definition mode_quad : M bool :=
  let result := false in
  locked <- env (mutex_timed_lock QSPI_TIMEOUT) ;;
  if locked then
    (* Initial command settings *)
    let sCommand := sCommand_declared
      <| set_AddressSize QSPI_ADDRESS_24_BITS
      <| set_AlternateByteMode QSPI_ALTERNATE_BYTES_NONE
      <| set_DdrMode QSPI_DDR_MODE_DISABLE
      <| set_DdrHoldHalfCycle QSPI_DDR_HHC_ANALOG_DELAY
      <| set_SIOOMode QSPI_SIOO_INST_EVERY_CMD
      <| set_InstructionMode QSPI_INSTRUCTION_1_LINE
      <| set_AddressMode QSPI_ADDRESS_NONE
      <| set_DataMode QSPI_DATA_1_LINE
      <| set_DummyCycles 0
      <| set_NbData 1 in
    (* Read status register 2 *)
    let sCommand := sCommand <| set_Instruction READ_STATUS_REGISTER_2 in
    result <-
      (cmd_ok <- env (HAL_QSPI_Command sCommand QSPI_TIMEOUT) ;;
       if cmd_ok then
         rx_ok <- env (HAL_QSPI_Receive QSPI_TIMEOUT) ;;
         if rx_ok then
           datareg <- rx 0 ;;
           if Z.land datareg 2 =? 0 then
             (* QE bit not set *)
             (* Enable volatile write *)
             let sCommand := sCommand
               <| set_DataMode QSPI_DATA_NONE
               <| set_Instruction VOLATILE_SR_WRITE_ENABLE in
             vwe_ok <- env (HAL_QSPI_Command sCommand QSPI_TIMEOUT) ;;
             if vwe_ok then
               (* Write back status register 2 (enable QE) *)
               let sCommand := sCommand
                 <| set_DataMode QSPI_DATA_1_LINE
                 <| set_Instruction WRITE_STATUS_REGISTER_2 in
               wsr_ok <- env (HAL_QSPI_Command sCommand QSPI_TIMEOUT) ;;
               if wsr_ok then
                 let datareg := uint8 (Z.lor datareg 2) in
                 tx_ok <- env (HAL_QSPI_Transmit (local_datareg datareg)
                                 QSPI_TIMEOUT) ;;
                 if tx_ok then ret true else ret result
               else ret result
             else ret result
           else ret true
         else ret result
       else ret result) ;;
    env mutex_unlock ;;
    ret result
  else ret result.

(** [qspi_winbond::memory_mapped]. *)
Definition memory_mapped : M bool :=
  let result := false in
  env HAL_QSPI_Abort ;;
  locked <- env (mutex_timed_lock QSPI_TIMEOUT) ;;
  if locked then
    let sCommand := sCommand_declared
      <| set_AddressSize QSPI_ADDRESS_24_BITS
      <| set_AlternateByteMode QSPI_ALTERNATE_BYTES_4_LINES
      <| set_AlternateBytesSize QSPI_ALTERNATE_BYTES_8_BITS
      <| set_DdrMode QSPI_DDR_MODE_DISABLE
      <| set_DdrHoldHalfCycle QSPI_DDR_HHC_ANALOG_DELAY
      <| set_SIOOMode QSPI_SIOO_INST_EVERY_CMD
      <| set_InstructionMode QSPI_INSTRUCTION_1_LINE
      <| set_AddressMode QSPI_ADDRESS_1_LINE
      <| set_DataMode QSPI_DATA_4_LINES
      <| set_DummyCycles 6
      <| set_Instruction FAST_READ_QUAD_OUT in
    let sMemMappedCfg := mkMemoryMapped None (Some QSPI_TIMEOUT_COUNTER_DISABLE) in
    result <-
      (mm_ok <- env (HAL_QSPI_MemoryMapped sCommand sMemMappedCfg) ;;
       if mm_ok then ret true else ret result) ;;
    env mutex_unlock ;;
    ret result
  else ret result.

(** [qspi_winbond::read]. *)
Definition read (address buff count : Z) : M bool :=
  let result := false in
  locked <- env (mutex_timed_lock QSPI_TIMEOUT) ;;
  if locked then
    (* Read command settings *)
    let sCommand := sCommand_declared
      <| set_AddressSize QSPI_ADDRESS_24_BITS
      <| set_AlternateByteMode QSPI_ALTERNATE_BYTES_4_LINES
      <| set_AlternateBytesSize QSPI_ALTERNATE_BYTES_8_BITS
      <| set_DdrMode QSPI_DDR_MODE_DISABLE
      <| set_DdrHoldHalfCycle QSPI_DDR_HHC_ANALOG_DELAY
      <| set_SIOOMode QSPI_SIOO_INST_EVERY_CMD
      <| set_InstructionMode QSPI_INSTRUCTION_1_LINE
      <| set_AddressMode QSPI_ADDRESS_1_LINE
      <| set_DataMode QSPI_DATA_4_LINES
      <| set_DummyCycles 6
      <| set_Address address
      <| set_NbData count
      <| set_Instruction FAST_READ_QUAD_OUT in
    env HAL_QSPI_Abort ;;
    (* Initiate read and wait for the event *)
    result <-
      (cmd_ok <- env (HAL_QSPI_Command sCommand QSPI_TIMEOUT) ;;
       if cmd_ok then
         rx_ok <- env HAL_QSPI_Receive_IT ;;
         if rx_ok then
           posted <- env (semaphore_timed_wait QSPI_TIMEOUT) ;;
           if posted then ret true else ret result
         else ret result
       else ret result) ;;
    (if negb result then env HAL_QSPI_Abort ;; ret tt else ret tt) ;;
    env mutex_unlock ;;
    ret result
  else ret result.

(** [qspi_winbond::page_write]. *)
Definition page_write (address buff count : Z) : M bool :=
  let result := false in
  locked <- env (mutex_timed_lock QSPI_TIMEOUT) ;;
  if locked then
    (* Initial command settings *)
    let sCommand := sCommand_declared
      <| set_AddressSize QSPI_ADDRESS_24_BITS
      <| set_AlternateByteMode QSPI_ALTERNATE_BYTES_NONE
      <| set_DdrMode QSPI_DDR_MODE_DISABLE
      <| set_DdrHoldHalfCycle QSPI_DDR_HHC_ANALOG_DELAY
      <| set_SIOOMode QSPI_SIOO_INST_EVERY_CMD
      <| set_InstructionMode QSPI_INSTRUCTION_1_LINE
      <| set_AddressMode QSPI_ADDRESS_NONE
      <| set_DataMode QSPI_DATA_NONE
      <| set_DummyCycles 0 in
    (* Enable write *)
    let sCommand := sCommand <| set_Instruction WRITE_ENABLE in
    result <-
      (we_ok <- env (HAL_QSPI_Command sCommand QSPI_TIMEOUT) ;;
       if we_ok then
         (* Initiate write *)
         let sCommand := sCommand
           <| set_Instruction QUAD_PAGE_PROGRAM
           <| set_AddressMode QSPI_ADDRESS_1_LINE
           <| set_DataMode QSPI_DATA_4_LINES
           <| set_Address address
           <| set_NbData count in
         cmd_ok <- env (HAL_QSPI_Command sCommand QSPI_TIMEOUT) ;;
         if cmd_ok then
           tx_ok <- env (HAL_QSPI_Transmit (caller_buffer buff)
                           QSPI_TIMEOUT) ;;
           if tx_ok then
             (* Set auto-polling and wait for the event *)
             let sCommand := sCommand
               <| set_AddressMode QSPI_ADDRESS_NONE
               <| set_DataMode QSPI_DATA_1_LINE
               <| set_Instruction READ_STATUS_REGISTER in
             let sConfig :=
               mkAutoPolling 0 1 0x10 1 QSPI_MATCH_MODE_AND
                 QSPI_AUTOMATIC_STOP_ENABLE in
             poll_ok <- env (HAL_QSPI_AutoPolling_IT sCommand sConfig) ;;
             if poll_ok then
               posted <- env (semaphore_timed_wait QSPI_TIMEOUT) ;;
               if posted then ret true else ret result
             else ret result
           else ret result
         else ret result
       else ret result) ;;
    (if negb result then env HAL_QSPI_Abort ;; ret tt else ret tt) ;;
    env mutex_unlock ;;
    ret result
  else ret result.

End Driver.

(** ** Reading a log *)

(** One call of [page_write (address, buff, count)]. *)
Record chunk := mkChunk {
  chunk_address : Z;
  chunk_buff : Z;
  chunk_count : Z
}.

(** [qspi::write] with [qspi::page_write] left to the environment: every
    call is logged with its arguments and the world picks its result. *)
Definition page_write_logged (address buff count : Z) : M bool :=
  env (qspi_page_write address buff count).

Fixpoint page_write_calls (t : list event) : list chunk :=
  match t with
  | [] => []
  | (qspi_page_write a b n, _) :: t' => mkChunk a b n :: page_write_calls t'
  | _ :: t' => page_write_calls t'
  end.

(** Every [page_write] call in the log returned [true]. *)
Definition page_writes_succeed (t : list event) : bool :=
  forallb (fun e => match fst e with
                    | qspi_page_write _ _ _ => snd e
                    | _ => true
                    end) t.

(** The [n] bytes of RAM at [p]: what a chunk carries to the flash. *)
Definition bytes (ram : Z -> Z) (p n : Z) : list Z :=
  map (fun i => ram (p + Z.of_nat i)) (seq 0 (Z.to_nat n)).
Definition chunk_bytes (ram : Z -> Z) (c : chunk) : list Z :=
  bytes ram (chunk_buff c) (chunk_count c).

Definition total_count (cs : list chunk) : Z :=
  fold_right Z.add 0 (map chunk_count cs).

(** The first byte and the last byte of a chunk lie in the same 256-byte
    page of the flash. *)
Definition within_one_page (c : chunk) : Prop :=
  (chunk_address c + chunk_count c - 1) / 256 = chunk_address c / 256.

(** The calls the loop of [qspi::write] makes from the state
    [(address, buff, count)] on, as long as [page_write] keeps succeeding:
    each takes what is left of the current page or of the count, and the
    next one starts where it ended. *)
Fixpoint tiling (address buff count : Z) (cs : list chunk) : Prop :=
  match cs with
  | [] => True
  | c :: cs' =>
      1 <= count /\
      chunk_address c = address /\
      chunk_buff c = buff /\
      chunk_count c = Z.min count (256 - Z.land address 0xFF) /\
      tiling (uint32 (address + chunk_count c)) (buff + chunk_count c)
        (count - chunk_count c) cs'
  end.

(** The descriptors handed to [HAL_QSPI_Command], in order. *)
Fixpoint commands (t : list event) : list QSPI_CommandTypeDef :=
  match t with
  | [] => []
  | (HAL_QSPI_Command c _, _) :: t' => c :: commands t'
  | _ :: t' => commands t'
  end.

(** The time-outs handed to [semaphore_.timed_wait], in order. *)
Fixpoint waits (t : list event) : list Z :=
  match t with
  | [] => []
  | (semaphore_timed_wait tm, _) :: t' => tm :: waits t'
  | _ :: t' => waits t'
  end.

(** Calls that reach the QUADSPI command unit. *)
Definition is_hal (c : call) : bool :=
  match c with
  | HAL_QSPI_Abort | HAL_QSPI_Command _ _ | HAL_QSPI_Receive _
  | HAL_QSPI_Receive_IT | HAL_QSPI_Transmit _ _ | HAL_QSPI_AutoPolling_IT _ _
  | HAL_QSPI_MemoryMapped _ _ => true
  | _ => false
  end.
Definition is_abort (c : call) : bool :=
  match c with HAL_QSPI_Abort => true | _ => false end.
Definition is_mutex (c : call) : bool :=
  match c with mutex_timed_lock _ | mutex_unlock => true | _ => false end.
(** Calls that put a command on the bus: a plain command, the auto-polling
    status read, the memory-mapped read. *)
Definition issues_command (c : call) : bool :=
  match c with
  | HAL_QSPI_Command _ _ | HAL_QSPI_AutoPolling_IT _ _
  | HAL_QSPI_MemoryMapped _ _ => true
  | _ => false
  end.

(** The driver ignores what [HAL_QSPI_Abort] and [unlock] return and tests
    the status of every other call.  Some tested call of the log failed: *)
Definition tested_call_failed (t : list event) : bool :=
  existsb (fun e => negb (snd e) && negb (is_abort (fst e))
                    && negb (match fst e with mutex_unlock => true
                             | _ => false end)) t.

Definition hal_calls (t : list event) : list event :=
  filter (fun e => is_hal (fst e)) t.
Definition aborts (t : list event) : nat :=
  length (filter (fun e => is_abort (fst e)) t).

(** For every stretch of the log during which the mutex is held (from a
    successful [timed_lock] to the next [unlock]), the number of commands put
    on the bus in it. *)
Fixpoint lock_windows (held : option nat) (t : list event) : list nat :=
  match t with
  | [] => match held with Some n => [n] | None => [] end
  | (mutex_timed_lock _, true) :: t' => lock_windows (Some 0%nat) t'
  | (mutex_unlock, _) :: t' =>
      match held with
      | Some n => n :: lock_windows None t'
      | None => lock_windows None t'
      end
  | (c, _) :: t' =>
      match held with
      | Some n => lock_windows (Some (if issues_command c then S n else n)) t'
      | None => lock_windows None t'
      end
  end.

(** A failing run aborts before it releases the mutex: the log ends with
    [HAL_QSPI_Abort] followed by [unlock]. *)
Definition aborts_then_unlocks (t : list event) : bool :=
  match rev t with
  | (mutex_unlock, _) :: (HAL_QSPI_Abort, _) :: _ => true
  | _ => false
  end.

(** The mutex was asked for and not obtained. *)
Definition lock_failed (t : list event) : bool :=
  existsb (fun e => match e with
                    | (mutex_timed_lock _, false) => true
                    | _ => false
                    end) t.

(** The operation asked for the mutex once and, having got it, kept it to
    its very last call, the [unlock]: either the only call is a failed
    [timed_lock], or the log is a successful [timed_lock], then calls none
    of which touches the mutex, then [unlock]. *)
Definition held_from_start_to_end (t : list event) : bool :=
  match t with
  | [(mutex_timed_lock _, false)] => true
  | (mutex_timed_lock _, true) :: rest =>
      match rev rest with
      | (mutex_unlock, _) :: body =>
          forallb (fun e => negb (is_mutex (fst e))) body
      | _ => false
      end
  | _ => false
  end.

(** The reading of "the lock is never held across multiple sequential
    hardware commands": no stretch of the log with the mutex held has more
    than one command in it. *)
Definition lock_scoped_per_command (t : list event) : Prop :=
  Forall (fun n => (n <= 1)%nat) (lock_windows None t).

(** ** Sample worlds and states *)

Definition power_on : machine := mkMachine (mkQspi 0 0 0 false None) [].

(** Every call succeeds; the chip answers EF 40 18 (a Winbond W25Q128). *)
Definition all_ok : world :=
  mkWorld (fun _ _ => true)
          (fun _ i => nth i [0xEF; 0x40; 0x18] 0).

(** Another thread keeps the mutex. *)
Definition lock_times_out : world :=
  mkWorld (fun _ c => match c with mutex_timed_lock _ => false | _ => true end)
          (fun _ _ => 0).

(** The peripheral rejects every command. *)
Definition command_rejected : world :=
  mkWorld (fun _ c => match c with HAL_QSPI_Command _ _ => false | _ => true end)
          (fun _ _ => 0).

(** The peripheral refuses to enter memory-mapped mode. *)
Definition memory_map_rejected : world :=
  mkWorld (fun _ c => match c with HAL_QSPI_MemoryMapped _ _ => false
                      | _ => true end)
          (fun _ _ => 0).

(** Status register 2 reads 0x02: the quad-enable bit is set. *)
Definition quad_enabled : world :=
  mkWorld (fun _ _ => true) (fun _ _ => 0x02).

(** The first [page_write] call succeeds, the next ones fail. *)
Definition second_page_fails : world :=
  mkWorld (fun t c => match c with
                      | qspi_page_write _ _ _ =>
                          (length (page_write_calls t) <? 1)%nat
                      | _ => true end)
          (fun _ _ => 0).

(** ** Further readings of a log *)

(** The log respects the mutex from a state where it is held or not
    ([held]): it is never asked for while held nor released while not held,
    every call to the command unit other than [HAL_QSPI_Abort] and every
    wait on the semaphore is made while it is held, and it is not held at
    the end of the log. *)
Fixpoint serialized (held : bool) (t : list event) : bool :=
  match t with
  | [] => negb held
  | (mutex_timed_lock _, ok) :: t' => negb held && serialized ok t'
  | (mutex_unlock, _) :: t' => held && serialized false t'
  | (HAL_QSPI_Abort, _) :: t' => serialized held t'
  | (new_qspi_winbond, _) :: t' => serialized held t'
  | (qspi_page_write _ _ _, _) :: t' => serialized held t'
  | _ :: t' => held && serialized held t'
  end.

(** Calls that start an interrupt-driven transfer, whose completion the
    peripheral signals through [cb_event]. *)
Definition starts_transfer (c : call) : bool :=
  match c with
  | HAL_QSPI_Receive_IT | HAL_QSPI_AutoPolling_IT _ _ => true
  | _ => false
  end.
Definition is_wait (c : call) : bool :=
  match c with semaphore_timed_wait _ => true | _ => false end.

(** Every accepted start of an interrupt-driven transfer is followed at once
    by a wait on the semaphore, and there is no other wait.  [pending]
    tells whether such a start has just been accepted. *)
Fixpoint completion_paired (pending : bool) (t : list event) : bool :=
  match t with
  | [] => negb pending
  | (c, ok) :: t' =>
      if pending then is_wait c && completion_paired false t'
      else if is_wait c then false
      else completion_paired (starts_transfer c && ok) t'
  end.

(** A stretch of log that respects the mutex, awaits its completions and
    constructs nothing. *)
Definition well_behaved (evs : list event) : Prop :=
  serialized false evs = true /\
  completion_paired false evs = true /\
  objects_constructed evs = 0%nat.

(** The time-outs handed to the calls that block the caller (lock, wait,
    command, receive, transmit), added up. *)
Fixpoint timeout_budget (t : list event) : Z :=
  match t with
  | [] => 0
  | (mutex_timed_lock tm, _) :: t' => tm + timeout_budget t'
  | (semaphore_timed_wait tm, _) :: t' => tm + timeout_budget t'
  | (HAL_QSPI_Command _ tm, _) :: t' => tm + timeout_budget t'
  | (HAL_QSPI_Receive tm, _) :: t' => tm + timeout_budget t'
  | (HAL_QSPI_Transmit _ tm, _) :: t' => tm + timeout_budget t'
  | _ :: t' => timeout_budget t'
  end.

(** How often the mutex is asked for, and how often it is released. *)
Definition lock_requests (t : list event) : nat :=
  length (filter (fun e => match fst e with mutex_timed_lock _ => true
                           | _ => false end) t).
Definition unlocks (t : list event) : nat :=
  length (filter (fun e => match fst e with mutex_unlock => true
                           | _ => false end) t).

(** The run ends with a wait for completion that was signalled, followed by
    [unlock]. *)
Definition awaited_then_unlocks (t : list event) : bool :=
  match rev t with
  | (mutex_unlock, _) :: (semaphore_timed_wait _, true) :: _ => true
  | _ => false
  end.

(** The last call of the log is [unlock]. *)
Definition ends_with_unlock (t : list event) : bool :=
  match rev t with
  | (mutex_unlock, _) :: _ => true
  | _ => false
  end.

(** The opcode and the status of every [HAL_QSPI_Command], in order. *)
Fixpoint command_results (t : list event) : list (option Z * bool) :=
  match t with
  | [] => []
  | (HAL_QSPI_Command c _, ok) :: t' => (Instruction c, ok) :: command_results t'
  | _ :: t' => command_results t'
  end.

(** What [page_write] calls returned, in order. *)
Fixpoint page_write_results (t : list event) : list bool :=
  match t with
  | [] => []
  | (qspi_page_write _ _ _, ok) :: t' => ok :: page_write_results t'
  | _ :: t' => page_write_results t'
  end.

(** The pages put on the bus: every accepted command that is followed at
    once by a transmit from the caller's buffer, with the address and the
    length of the command and the buffer of the transmit. *)
Fixpoint programmed (t : list event) : list chunk :=
  match t with
  | [] => []
  | (HAL_QSPI_Command c _, true) :: t' =>
      match t', Address c, NbData c with
      | (HAL_QSPI_Transmit (caller_buffer b) _, _) :: _, Some a, Some n =>
          mkChunk a b n :: programmed t'
      | _, _, _ => programmed t'
      end
  | _ :: t' => programmed t'
  end.

(** The log of one page: one request for the mutex, kept (if obtained) to
    the final [unlock] with every other call in between, at most one write
    enable and one program command, at most one page of data. *)
Definition one_page_scope (evs : list event) : Prop :=
  held_from_start_to_end evs = true /\
  lock_requests evs = 1%nat /\
  (length (commands evs) <= 2)%nat /\
  (length (programmed evs) <= 1)%nat.

(** The bytes [HAL_QSPI_Transmit] was handed from the local [datareg]. *)
Fixpoint datareg_sent (t : list event) : list Z :=
  match t with
  | [] => []
  | (HAL_QSPI_Transmit (local_datareg v) _, _) :: t' => v :: datareg_sent t'
  | _ :: t' => datareg_sent t'
  end.

(** Status register 2 reads 0x40: the quad-enable bit is clear. *)
Definition quad_disabled : world :=
  mkWorld (fun _ _ => true) (fun _ _ => 0x40).

(** The transfer starts but its completion is never signalled. *)
Definition completion_lost : world :=
  mkWorld (fun _ c => match c with semaphore_timed_wait _ => false
                      | _ => true end)
          (fun _ _ => 0).

(** * Properties *)

(** ** Arithmetic of the page split *)

Lemma low_byte_range address : 0 <= Z.land address 0xFF < 256.
Proof.
  change 0xFF with (Z.ones 8). rewrite Z.land_ones by lia.
  apply Z.mod_pos_bound. lia.
Qed.

Lemma room_in_page address :
  uint32 (0x100 - Z.land address 0xFF) = 256 - Z.land address 0xFF.
Proof.
  pose proof (low_byte_range address).
  unfold uint32. apply Z.mod_small. lia.
Qed.

Lemma in_block_count_min address count :
  in_block_count address count = Z.min count (256 - Z.land address 0xFF).
Proof.
  unfold in_block_count. rewrite room_in_page.
  pose proof (low_byte_range address).
  destruct (Z.gtb_spec (256 - Z.land address 255) count); [lia|].
  destruct (Z.eqb_spec (256 - Z.land address 255) 0); lia.
Qed.

(** C10.  In [qspi::write], [0x100 - (address & 0xFF)] lies in [1, 256] for
    every address, so the arm guarded by [in_block_count == 0] never runs,
    and for a count of at least 1 the chunk length used is
    [min (count, 256 - (address & 0xFF))], page-aligned addresses
    included. *)
Theorem write_room_is_never_zero :
  forall address count : Z,
    1 <= uint32 (0x100 - Z.land address 0xFF) <= 256 /\
    arm_taken address count <> arm_zero_room /\
    (1 <= count ->
     in_block_count address count
     = Z.min count (256 - Z.land address 0xFF)) /\
    (1 <= count -> Z.land address 0xFF = 0 ->
     in_block_count address count = Z.min count 256).
Proof.
  intros address count.
  pose proof (low_byte_range address) as Hlow.
  pose proof (room_in_page address) as Hroom.
  repeat split.
  - lia.
  - lia.
  - unfold arm_taken. rewrite Hroom.
    destruct (Z.gtb_spec (256 - Z.land address 255) count); [discriminate|].
    destruct (Z.eqb_spec (256 - Z.land address 255) 0); [lia|discriminate].
  - intros _. apply in_block_count_min.
  - intros _ Hal. rewrite in_block_count_min, Hal. reflexivity.
Qed.

Lemma write_room_is_never_zero_witness :
  in_block_count 0x100 1000 = Z.min 1000 256 /\
  in_block_count 0x1F0 1000 = Z.min 1000 (256 - Z.land 0x1F0 0xFF).
Proof.
  split.
  - apply (write_room_is_never_zero 0x100 1000); [lia | reflexivity].
  - apply (write_room_is_never_zero 0x1F0 1000); lia.
Defined.

(** ** Running the monad *)

Lemma skipn_own_length {A} (l t : list A) : skipn (length l) (l ++ t) = t.
Proof. induction l; simpl; auto. Qed.

(** Unfold the driver's code down to the world's answers. *)
Ltac unfold_driver :=
  unfold trace_of, result_of, state_after, run, read_JEDEC_ID, get_ID_data,
    erase, mode_quad, memory_mapped, read, page_write, write,
    page_write_logged, new_winbond, put_this, get_this, rx, bind, env, ret;
  cbn [fst snd this log].

(** Split on the answer to the earliest call whose status is still open. *)
Ltac ask_world :=
  match goal with
  | |- context [status ?w ?t ?c] =>
      lazymatch t with
      | context [status _ _ _] => fail
      | _ => let E := fresh "Answer" in destruct (status w t c) eqn:E
      end
  end; cbn [fst snd this log negb].

Ltac tidy_log :=
  repeat rewrite <- app_assoc; cbn [app];
  try rewrite skipn_own_length.

Ltac run_driver := unfold_driver; repeat ask_world; tidy_log.

(** ** [qspi::write] *)

Lemma write_loop_step (pw : Z -> Z -> Z -> M bool) address buff count w m :
  write_loop pw address buff count w m =
  (let n := Z.min count (256 - Z.land address 0xFF) in
   let (ok, m1) := pw address buff n w m in
   if negb ok then (false, m1)
   else if uint32 (count - n) =? 0 then (true, m1)
        else write_loop pw (uint32 (address + n)) (buff + n)
               (uint32 (count - n)) w m1).
Proof.
  rewrite write_loop_equation_1. cbv zeta.
  rewrite in_block_count_min. unfold bind, ret.
  destruct (pw address buff _ w m) as [ok m1].
  destruct ok; cbn [negb]; [|reflexivity].
  destruct (Z.eq_dec _ 0) as [E|E].
  - rewrite E. reflexivity.
  - apply Z.eqb_neq in E. rewrite E. reflexivity.
Qed.

(** C9.  [qspi::write] with [count == 0] still runs its loop body once: for
    every address it calls [page_write] exactly once, with length 0, and
    returns what that call returns.  With the Winbond [page_write] and
    hardware that accepts every call, this puts a write-enable and a
    page-program command for 0 bytes on the bus. *)
Theorem write_zero_bytes_still_programs :
  forall (h : qspi_flash_h) (address buff : Z) (w : world) (m : machine),
    (forall pw : Z -> Z -> Z -> M bool,
        run (write pw address buff 0) w m
        = run (env HAL_QSPI_Abort ;; pw address buff 0) w m) /\
    page_write_calls (trace_of (write page_write_logged address buff 0) w m)
    = [mkChunk address buff 0] /\
    result_of (write page_write_logged address buff 0) w m
    = status w (log m ++ [(HAL_QSPI_Abort, status w (log m) HAL_QSPI_Abort)])
        (qspi_page_write address buff 0) /\
    ((forall t c, status w t c = true) ->
     result_of (write page_write address buff 0) w m = true /\
     map (fun c => (Instruction c, AddressMode c, Address c, NbData c))
       (commands (trace_of (write page_write address buff 0) w m))
     = [(Some WRITE_ENABLE, Some QSPI_ADDRESS_NONE, None, None);
        (Some QUAD_PAGE_PROGRAM, Some QSPI_ADDRESS_1_LINE, Some address,
         Some 0)]).
Proof.
  intros h address buff w m.
  assert (Hgen : forall pw : Z -> Z -> Z -> M bool,
             run (write pw address buff 0) w m
             = run (env HAL_QSPI_Abort ;; pw address buff 0) w m).
  { intros pw. unfold run, write, bind.
    destruct (env HAL_QSPI_Abort w m) as [a m1].
    rewrite write_loop_step. cbv zeta.
    pose proof (low_byte_range address).
    replace (Z.min 0 (256 - Z.land address 255)) with 0 by lia.
    destruct (pw address buff 0 w m1) as [ok m2].
    destruct ok; reflexivity. }
  split; [exact Hgen|].
  split; [|split].
  - unfold trace_of. specialize (Hgen page_write_logged).
    unfold run in Hgen. rewrite Hgen. run_driver; reflexivity.
  - unfold result_of. specialize (Hgen page_write_logged).
    unfold run in Hgen. rewrite Hgen. unfold_driver. reflexivity.
  - intros Hok. specialize (Hgen page_write).
    unfold run in Hgen. unfold result_of, trace_of. rewrite Hgen.
    unfold_driver. rewrite !Hok. cbn [fst snd this log negb].
    rewrite !Hok. cbn [fst snd this log negb]. tidy_log.
    split; reflexivity.
Qed.

Lemma write_zero_bytes_still_programs_witness :
  result_of (write (page_write (h := jedec_header)) 0x1000 0x20000000 0)
    all_ok power_on = true /\
  map (fun c => (Instruction c, AddressMode c, Address c, NbData c))
    (commands (trace_of (write (page_write (h := jedec_header)) 0x1000
                           0x20000000 0) all_ok power_on))
  = [(Some 0x06, Some QSPI_ADDRESS_NONE, None, None);
     (Some 0x32, Some QSPI_ADDRESS_1_LINE, Some 0x1000, Some 0)].
Proof.
  apply (write_zero_bytes_still_programs jedec_header 0x1000 0x20000000
           all_ok power_on).
  intros t c. reflexivity.
Defined.

Lemma write_loop_logged_step w address buff count m :
  write_loop page_write_logged address buff count w m =
  (let n := Z.min count (256 - Z.land address 0xFF) in
   let ok := status w (log m) (qspi_page_write address buff n) in
   let m1 := mkMachine (this m)
               (log m ++ [(qspi_page_write address buff n, ok)]) in
   if ok then
     if uint32 (count - n) =? 0 then (true, m1)
     else write_loop page_write_logged (uint32 (address + n)) (buff + n)
            (uint32 (count - n)) w m1
   else (false, m1)).
Proof.
  rewrite write_loop_step. cbv zeta.
  unfold page_write_logged at 1. unfold env at 1. cbv zeta.
  destruct (status w (log m) _); reflexivity.
Qed.

(** The loop of [qspi::write], run against a logged [page_write]: what it
    adds to the log is a tiling; it returns [true] exactly when every call
    succeeded, and then the tiling covers the whole count. *)
Lemma write_loop_tiles (w : world) :
  forall count, 0 <= count ->
  forall address buff m, 1 <= count < 2 ^ 32 ->
    exists evs,
      log (snd (write_loop page_write_logged address buff count w m))
      = log m ++ evs /\
      this (snd (write_loop page_write_logged address buff count w m))
      = this m /\
      page_write_calls evs <> [] /\
      tiling address buff count (page_write_calls evs) /\
      (fst (write_loop page_write_logged address buff count w m) = true <->
       page_writes_succeed evs = true) /\
      (fst (write_loop page_write_logged address buff count w m) = true ->
       total_count (page_write_calls evs) = count).
Proof.
  intros count _.
  induction count as [count IH] using (well_founded_induction (Z.lt_wf 0)).
  intros address buff m Hcount.
  rewrite write_loop_logged_step. cbv zeta.
  pose proof (low_byte_range address) as Hlow.
  set (n := Z.min count (256 - Z.land address 255)).
  assert (Hn : 1 <= n <= count) by (subst n; lia).
  assert (Hu : uint32 (count - n) = count - n).
  { unfold uint32. apply Z.mod_small. lia. }
  destruct (status w (log m) (qspi_page_write address buff n)) eqn:Hok.
  - rewrite Hu. destruct (Z.eqb_spec (count - n) 0) as [Hz|Hz].
    + exists [(qspi_page_write address buff n, true)].
      cbn. fold n. repeat split; auto; try lia; discriminate.
    + set (m1 := mkMachine (this m)
                   (log m ++ [(qspi_page_write address buff n, true)])).
      destruct (IH (count - n) ltac:(lia) (uint32 (address + n)) (buff + n)
                  m1 ltac:(lia))
        as (evs & Hlog & Hthis & _ & Htile & Hres & Htot).
      exists ((qspi_page_write address buff n, true) :: evs).
      rewrite Hlog, Hthis. subst m1. cbn [log this].
      rewrite <- app_assoc. cbn [app].
      split; [reflexivity|]. split; [reflexivity|].
      split; [discriminate|]. split; [|split].
      * cbn. fold n. repeat split; auto; lia.
      * cbn. exact Hres.
      * intros H. cbn. unfold total_count in Htot. rewrite (Htot H). lia.
  - exists [(qspi_page_write address buff n, false)].
    cbn. fold n. repeat split; auto; try lia; discriminate.
Qed.

Lemma same_page address n :
  0 <= address -> 1 <= n -> Z.land address 0xFF + n <= 256 ->
  (address + n - 1) / 256 = address / 256.
Proof.
  intros Ha Hn Hfit.
  change 0xFF with (Z.ones 8) in Hfit. rewrite Z.land_ones in Hfit by lia.
  change (2 ^ 8) with 256 in Hfit.
  pose proof (Z.mod_pos_bound address 256 ltac:(lia)).
  pose proof (Z.div_mod address 256 ltac:(lia)).
  symmetry. apply Z.div_unique with (r := address mod 256 + n - 1); lia.
Qed.

Lemma tiling_chunk_facts base_address base_buff total :
  forall cs off address buff count,
    0 <= off ->
    address = uint32 (base_address + off) ->
    buff = base_buff + off ->
    count = total - off ->
    tiling address buff count cs ->
    Forall (fun c =>
              chunk_count c
              = Z.min (total - (chunk_buff c - base_buff))
                  (256 - Z.land (chunk_address c) 0xFF) /\
              1 <= chunk_count c <= 256 /\
              within_one_page c /\
              chunk_address c
              = uint32 (base_address + (chunk_buff c - base_buff))) cs.
Proof.
  induction cs as [|c cs IH]; intros off address buff count Hoff Ha Hb Hc Ht.
  - constructor.
  - destruct Ht as (Hpos & Hca & Hcb & Hcn & Hrest).
    pose proof (low_byte_range address) as Hlow.
    constructor.
    + rewrite Hca, Hcb, Hcn. subst buff count.
      replace (base_buff + off - base_buff) with off by lia.
      repeat split; try lia; try exact Ha.
      unfold within_one_page. rewrite Hca, Hcn.
      apply same_page; try lia.
      subst address. unfold uint32. apply Z.mod_pos_bound. lia.
    + apply (IH (off + chunk_count c) _ _ _ ltac:(lia)) in Hrest; auto.
      * subst address. unfold uint32.
        rewrite Z.add_mod_idemp_l by lia. f_equal. lia.
      * lia.
      * lia.
Qed.

Lemma bytes_from (ram : Z -> Z) :
  forall k start p,
    map (fun i => ram (p + Z.of_nat i)) (seq start k)
    = map (fun i => ram (p + Z.of_nat start + Z.of_nat i)) (seq 0 k).
Proof.
  induction k as [|k IH]; intros start p; [reflexivity|].
  cbn [seq map]. f_equal.
  - f_equal. lia.
  - rewrite (IH (S start) p), (IH 1%nat (p + Z.of_nat start)).
    apply map_ext. intros i. f_equal. lia.
Qed.

Lemma bytes_app ram p a b :
  0 <= a -> 0 <= b ->
  bytes ram p (a + b) = bytes ram p a ++ bytes ram (p + a) b.
Proof.
  intros Ha Hb. unfold bytes.
  rewrite Z2Nat.inj_add by lia. rewrite seq_app, map_app. f_equal.
  cbn [Nat.add]. rewrite bytes_from. rewrite Z2Nat.id by lia. reflexivity.
Qed.

Lemma tiling_bytes ram :
  forall cs address buff count,
    0 <= count ->
    tiling address buff count cs ->
    0 <= total_count cs <= count /\
    concat (map (chunk_bytes ram) cs) = bytes ram buff (total_count cs).
Proof.
  induction cs as [|c cs IH]; intros address buff count Hc Ht.
  - cbn. split; [lia|reflexivity].
  - destruct Ht as (Hpos & Hca & Hcb & Hcn & Hrest).
    pose proof (low_byte_range address) as Hlow.
    apply IH in Hrest; [|lia]. destruct Hrest as [Hsum Hcat].
    unfold total_count in *. cbn [map fold_right concat].
    split; [lia|].
    rewrite Hcat, bytes_app by lia.
    unfold chunk_bytes. rewrite Hcb. reflexivity.
Qed.

(** C1.  For every start address and every count of at least 1,
    [qspi::write] hands [page_write] chunks such that each chunk's length is
    [min (remaining count, 256 - (address & 0xFF))], is at most 256, no chunk
    crosses a 256-byte page boundary, every chunk sits at the flash offset of
    its buffer offset, and the chunks, concatenated, are the buffer: always a
    prefix of it (the loop stops at the first failing call), and the whole
    of it when [write] returns [true], which it does exactly when every
    [page_write] call succeeds.  [write (0x0F0, data, 32)] then issues
    exactly two chunks: address 0x0F0 length 16 and address 0x100 length
    16. *)
Theorem write_splits_at_page_boundaries :
  forall (w : world) (m : machine) (address buff count : Z),
    0 <= address < 2 ^ 32 ->
    1 <= count < 2 ^ 32 ->
    let t := trace_of (write page_write_logged address buff count) w m in
    let cs := page_write_calls t in
    let r := result_of (write page_write_logged address buff count) w m in
    cs <> [] /\
    Forall (fun c =>
              chunk_count c
              = Z.min (count - (chunk_buff c - buff))
                  (256 - Z.land (chunk_address c) 0xFF) /\
              1 <= chunk_count c <= 256 /\
              within_one_page c /\
              chunk_address c = uint32 (address + (chunk_buff c - buff))) cs /\
    (forall ram, exists rest,
        bytes ram buff count = concat (map (chunk_bytes ram) cs) ++ rest) /\
    (r = true <-> page_writes_succeed t = true) /\
    (r = true ->
     forall ram, concat (map (chunk_bytes ram) cs) = bytes ram buff count) /\
    (address = 0x0F0 -> count = 32 -> r = true ->
     cs = [mkChunk 0x0F0 buff 16; mkChunk 0x100 (buff + 16) 16]).
Proof.
  intros w m address buff count Haddr Hcount t cs r.
  set (m1 := mkMachine (this m)
               (log m ++ [(HAL_QSPI_Abort, status w (log m) HAL_QSPI_Abort)])).
  destruct (write_loop_tiles w count ltac:(lia) address buff m1 Hcount)
    as (evs & Hlog & _ & Hsome & Htile & Hres & Htot).
  assert (Ht : t = (HAL_QSPI_Abort, status w (log m) HAL_QSPI_Abort) :: evs).
  { subst t. unfold trace_of, write, bind, env. cbv zeta. fold m1.
    rewrite Hlog. subst m1. cbn [log]. tidy_log. reflexivity. }
  assert (Hr : r = fst (write_loop page_write_logged address buff count w m1)).
  { reflexivity. }
  assert (Hcs : cs = page_write_calls evs).
  { subst cs. rewrite Ht. reflexivity. }
  clearbody t cs r. subst t r cs.
  cbn [page_writes_succeed forallb fst andb].
  fold (page_writes_succeed evs).
  set (cs := page_write_calls evs) in *.
  assert (Hfacts := tiling_chunk_facts address buff count cs 0 address buff
                      count ltac:(lia)).
  rewrite Z.add_0_r, Z.sub_0_r in Hfacts. unfold uint32 at 1 in Hfacts.
  rewrite Z.mod_small in Hfacts by lia.
  specialize (Hfacts eq_refl ltac:(lia) eq_refl Htile).
  assert (Hbytes := fun ram => tiling_bytes ram cs address buff count
                                 ltac:(lia) Htile).
  split; [|split; [exact Hfacts|split; [|split; [exact Hres|split]]]].
  - exact Hsome.
  - intros ram. destruct (Hbytes ram) as [Hsum Hcat].
    exists (bytes ram (buff + total_count cs) (count - total_count cs)).
    rewrite Hcat, <- bytes_app by lia. f_equal. lia.
  - intros Hr ram. destruct (Hbytes ram) as [_ Hcat].
    rewrite Hcat, (Htot Hr). reflexivity.
  - intros -> -> Hr. apply Htot in Hr. clear Hfacts Hbytes Hres Htot Hlog.
    destruct cs as [|c1 cs]; [discriminate|].
    destruct Htile as (_ & Ha1 & Hb1 & Hn1 & Htile).
    change (Z.min 32 (256 - Z.land 240 255)) with 16 in Hn1.
    rewrite Hn1 in Htile.
    change (uint32 (240 + 16)) with 256 in Htile.
    change (32 - 16) with 16 in Htile.
    destruct cs as [|c2 cs].
    { unfold total_count in Hr. cbn in Hr. lia. }
    destruct Htile as (_ & Ha2 & Hb2 & Hn2 & Htile).
    change (Z.min 16 (256 - Z.land 256 255)) with 16 in Hn2.
    rewrite Hn2 in Htile. change (16 - 16) with 0 in Htile.
    destruct cs as [|c3 cs]; [|cbn in Htile; lia].
    destruct c1 as [a1 b1 n1], c2 as [a2 b2 n2].
    cbn [chunk_address chunk_buff chunk_count] in *. subst. reflexivity.
Qed.

Lemma write_splits_at_page_boundaries_witness :
  page_write_calls
    (trace_of (write page_write_logged 0x0F0 0x20000000 32) all_ok power_on)
  = [mkChunk 0x0F0 0x20000000 16; mkChunk 0x100 (0x20000000 + 16) 16].
Proof.
  pose proof (write_splits_at_page_boundaries all_ok power_on 0x0F0
                0x20000000 32 ltac:(lia) ltac:(lia)) as H.
  cbv zeta in H.
  destruct H as (_ & _ & _ & _ & _ & H).
  apply H; reflexivity.
Defined.

(** When a [page_write] call fails the loop stops there: of the three pages
    that [write (0x0F0, data, 600)] spans, only two are attempted if the
    second attempt fails. *)
Example write_stops_at_first_failure :
  run (write page_write_logged 0x0F0 0x20000000 600) second_page_fails
    power_on
  = (false,
     mkMachine (this power_on)
       [(HAL_QSPI_Abort, true);
        (qspi_page_write 0x0F0 0x20000000 16, true);
        (qspi_page_write 0x100 0x20000010 256, false)]).
Proof. reflexivity. Qed.

(** ** Failure paths, the lock and the identity *)

(** Which call of an explicit log failed. *)
Ltac failing_call :=
  repeat match goal with
    | H : In _ (_ :: _) |- _ => destruct H as [H|H]
    | H : In _ [] |- _ => destruct H
    | H : (_, _) = (_, _) |- _ => inversion H; clear H; subst
    end;
  try discriminate; try congruence.

(** C6.  [read_JEDEC_ID] updates the identity all at once or not at all.
    When it returns [true] the three fields hold the three bytes received
    and [valid_mem_ID] is set; when it returns [false] the object is exactly
    as before the call.  It returns [false] whenever the lock, the command,
    the receive or the wait for completion fails. *)
Theorem read_JEDEC_ID_all_or_nothing :
  forall (h : qspi_flash_h) (w : world) (m : machine),
    let r := result_of read_JEDEC_ID w m in
    let m' := state_after read_JEDEC_ID w m in
    let t := trace_of read_JEDEC_ID w m in
    (r = true ->
     let seen := log m ++ removelast t in
     this m' = mkQspi (uint8 (received w seen 0)) (uint8 (received w seen 1))
                 (uint8 (received w seen 2)) true (pimpl (this m))) /\
    (r = false -> this m' = this m) /\
    (r = false <-> tested_call_failed t = true).
Proof.
  intros h w m. cbv zeta. run_driver;
    cbn [manufacturer_ID_ memory_type_ memory_capacity_ valid_mem_ID pimpl
         removelast];
    (split; [|split; [|split]]);
    try (intros; discriminate); intros; reflexivity.
Qed.

Lemma read_JEDEC_ID_all_or_nothing_witness :
  this (state_after (read_JEDEC_ID (h := jedec_header)) all_ok power_on)
  = mkQspi 0xEF 0x40 0x18 true None.
Proof.
  pose proof (read_JEDEC_ID_all_or_nothing jedec_header all_ok power_on) as H.
  cbv zeta in H. destruct H as (H & _).
  rewrite (H eq_refl). reflexivity.
Defined.

Lemma quad_enable_bit x :
  Z.testbit x 1 = true -> (Z.land (uint8 x) 2 =? 0) = false.
Proof.
  intros Hbit. apply Z.eqb_neq. intros E.
  assert (Hset : Z.testbit (Z.land (uint8 x) 2) 1 = true).
  { rewrite Z.land_spec. unfold uint8.
    rewrite Z.mod_pow2_bits_low by lia. rewrite Hbit. reflexivity. }
  rewrite E in Hset. discriminate Hset.
Qed.

(** C5.  [mode_quad] is idempotent: whenever the mutex is taken, the read of
    status register 2 succeeds (command accepted, byte received) and bit 1
    of the byte, the quad-enable bit, is set, [mode_quad] returns [true]
    having issued nothing but that read: no volatile-write-enable command,
    no status-register write command, no transmit. *)
Theorem mode_quad_idempotent :
  forall (h : qspi_flash_h) (w : world) (m : machine),
    let t := trace_of mode_quad w m in
    map snd (firstn 3 t) = [true; true; true] ->
    Z.testbit (received w (log m ++ firstn 3 t) 0) 1 = true ->
    result_of mode_quad w m = true /\
    map fst (firstn 3 t) ++ [mutex_unlock] = map fst t /\
    map Instruction (commands t) = [Some READ_STATUS_REGISTER_2] /\
    (forall c, In c (commands t) ->
               Instruction c <> Some VOLATILE_SR_WRITE_ENABLE /\
               Instruction c <> Some WRITE_STATUS_REGISTER_2) /\
    (forall src tm ok, ~ In (HAL_QSPI_Transmit src tm, ok) t).
Proof.
  intros h w m. cbv zeta. unfold_driver.
  repeat first
    [ ask_world
    | match goal with
      | |- context [Z.land ?x 2 =? 0] =>
          destruct (Z.land x 2 =? 0) eqn:Hqe; cbn [fst snd this log negb]
      end ].
  all: tidy_log; repeat rewrite <- app_assoc in *; cbn [app] in *.
  all: cbn [firstn map snd]; intros Hfirst Hbit; try discriminate Hfirst.
  all: try (exfalso; apply quad_enable_bit in Hbit;
            exact (eq_true_false_abs _ Hqe Hbit)).
  all: cbn [map fst commands Instruction set_Instruction app].
  all: repeat split; try reflexivity; unfold not; intros; failing_call.
  all: subst; match goal with E : Instruction _ = Some _ |- _ =>
                cbv in E; discriminate E end.
Qed.

Lemma mode_quad_idempotent_witness :
  result_of (mode_quad (h := jedec_header)) quad_enabled power_on = true /\
  map Instruction
    (commands (trace_of (mode_quad (h := jedec_header)) quad_enabled power_on))
  = [Some 0x35].
Proof.
  pose proof (mode_quad_idempotent jedec_header quad_enabled power_on
                eq_refl eq_refl) as (Hres & _ & Hcmd & _).
  split; [exact Hres | exact Hcmd].
Defined.

(** ** [qspi::erase] *)

Section Erase.
Context {h : qspi_flash_h}.
Variables (w : world) (m : machine) (address which : Z).






End Erase.



(** ** Abort on failure *)

(** In [read_JEDEC_ID], [erase], [read] and [page_write] a run that fails
    after taking the mutex ends with [HAL_QSPI_Abort] and then [unlock]. *)
Lemma guarded_operations_abort_on_failure :
  forall (h : qspi_flash_h) (w : world) (m : machine)
         (address buff count which : Z),
    let failing_run_aborts (op : M bool) :=
      result_of op w m = false ->
      trace_of op w m = [(mutex_timed_lock QSPI_TIMEOUT, false)] \/
      aborts_then_unlocks (trace_of op w m) = true in
    failing_run_aborts read_JEDEC_ID /\
    failing_run_aborts (erase address which) /\
    failing_run_aborts (read address buff count) /\
    failing_run_aborts (page_write address buff count).
Proof.
  intros h w m address buff count which. cbv zeta.
  repeat split; run_driver; intros Hres; try discriminate Hres;
    first [left; reflexivity | right; reflexivity].
Qed.

(** C2.  [mode_quad] and [memory_mapped] break the rule that a failing step
    is followed by an abort before the mutex is released.  [mode_quad] never
    calls [HAL_QSPI_Abort] at all; when the peripheral rejects its first
    command it takes the mutex, issues the command, releases the mutex and
    returns [false].  [memory_mapped] aborts only before it takes the mutex;
    when [HAL_QSPI_MemoryMapped] fails it releases the mutex without an
    abort. *)
Theorem mode_quad_fails_without_abort :
  (forall (h : qspi_flash_h) (w : world) (m : machine),
      aborts (trace_of mode_quad w m) = 0%nat) /\
  (let t := trace_of (mode_quad (h := jedec_header)) command_rejected
              power_on in
   result_of (mode_quad (h := jedec_header)) command_rejected power_on
   = false /\
   map snd t = [true; false; true] /\
   map (fun e => is_mutex (fst e)) t = [true; false; true] /\
   map Instruction (commands t) = [Some READ_STATUS_REGISTER_2] /\
   aborts t = 0%nat /\
   aborts_then_unlocks t = false) /\
  (let t := trace_of (memory_mapped (h := jedec_header)) memory_map_rejected
              power_on in
   result_of (memory_mapped (h := jedec_header)) memory_map_rejected power_on
   = false /\
   map snd t = [true; true; false; true] /\
   map (fun e => is_abort (fst e)) t = [true; false; false; false] /\
   map (fun e => is_mutex (fst e)) t = [false; true; false; true] /\
   aborts_then_unlocks t = false).
Proof.
  split; [|split].
  - intros h w m. unfold_driver.
    repeat first
      [ ask_world
      | match goal with
        | |- context [Z.land ?x 2 =? 0] =>
            destruct (Z.land x 2 =? 0) eqn:Hqe; cbn [fst snd this log negb]
        end ].
    all: tidy_log; reflexivity.
  - cbv zeta. repeat split; reflexivity.
  - cbv zeta. repeat split; reflexivity.
Qed.

(** ** The scope of the lock *)

(** C3, as claimed, fails: in a [page_write] whose every step succeeds the
    mutex is taken once and three commands (write enable, page program,
    status poll) are put on the bus before it is released. *)
Lemma page_write_holds_lock_across_commands :
  lock_windows None
    (trace_of (page_write (h := jedec_header) 0x1000 0x20000000 16) all_ok
       power_on) = [3%nat] /\
  ~ lock_scoped_per_command
      (trace_of (page_write (h := jedec_header) 0x1000 0x20000000 16) all_ok
         power_on).
Proof.
  split; [reflexivity|].
  unfold lock_scoped_per_command.
  change (lock_windows None _) with [3%nat].
  intros H. inversion H as [|n l Hle Hrest]; subst. lia.
Qed.

(** C3, amended.  [page_write] and [erase] ask for the mutex once, at their
    start, and having got it release it once, as their last call: the mutex
    is held across every command of the operation.  In a run that succeeds
    that is one stretch holding three commands: write enable, then
    program or erase, then the status poll. *)
Theorem lock_spans_whole_operation :
  forall (h : qspi_flash_h) (w : world) (m : machine)
         (address buff count which : Z),
    let one_lock_scope (op : M bool) :=
      held_from_start_to_end (trace_of op w m) = true /\
      (length (lock_windows None (trace_of op w m)) <= 1)%nat /\
      (result_of op w m = true ->
       lock_windows None (trace_of op w m) = [3%nat]) in
    one_lock_scope (page_write address buff count) /\
    one_lock_scope (erase address which).
Proof.
  intros h w m address buff count which. cbv zeta.
  repeat split; run_driver;
    solve [reflexivity | cbn; lia | intros Hres; discriminate Hres
          | intros _; reflexivity].
Qed.

Lemma lock_spans_whole_operation_witness :
  lock_windows None
    (trace_of (erase (h := jedec_header) 0x1000 0x20) all_ok power_on)
  = [3%nat] /\
  held_from_start_to_end
    (trace_of (page_write (h := jedec_header) 0x1000 0x20000000 16)
       command_rejected power_on) = true.
Proof.
  pose proof (lock_spans_whole_operation jedec_header all_ok power_on 0x1000
                0x20000000 16 0x20) as Hok.
  pose proof (lock_spans_whole_operation jedec_header command_rejected
                power_on 0x1000 0x20000000 16 0x20) as Hrej.
  cbv zeta in Hok, Hrej.
  destruct Hok as (_ & _ & _ & Herase).
  destruct Hrej as ((Hheld & _) & _).
  split; [apply Herase; reflexivity | exact Hheld].
Defined.

(** ** Lock time-out *)

(** C7, as claimed, fails: [memory_mapped] calls [HAL_QSPI_Abort] before it
    asks for the mutex, so when the mutex is not obtained the command unit
    has already been touched. *)
Lemma memory_mapped_aborts_before_lock :
  lock_failed (trace_of (memory_mapped (h := jedec_header)) lock_times_out
                 power_on) = true /\
  run (memory_mapped (h := jedec_header)) lock_times_out power_on
  = (false,
     mkMachine (this power_on)
       [(HAL_QSPI_Abort, true); (mutex_timed_lock 100, false)]) /\
  hal_calls (trace_of (memory_mapped (h := jedec_header)) lock_times_out
               power_on) <> [].
Proof.
  split; [reflexivity|]. split; [reflexivity|]. discriminate.
Qed.

(** C7, amended.  When the mutex is not obtained, [read_JEDEC_ID], [erase],
    [mode_quad], [read] and [page_write] return [false] having made no other
    call: the command unit is not touched.  [memory_mapped] returns
    [false] having made one call to the command unit, the [HAL_QSPI_Abort]
    that precedes its lock attempt, and none after it. *)
Theorem lock_timeout_leaves_hardware_alone :
  forall (h : qspi_flash_h) (w : world) (m : machine)
         (address buff count which : Z),
    let untouched (op : M bool) :=
      lock_failed (trace_of op w m) = true ->
      result_of op w m = false /\
      trace_of op w m = [(mutex_timed_lock QSPI_TIMEOUT, false)] /\
      hal_calls (trace_of op w m) = [] /\
      this (state_after op w m) = this m in
    untouched read_JEDEC_ID /\
    untouched (erase address which) /\
    untouched mode_quad /\
    untouched (read address buff count) /\
    untouched (page_write address buff count) /\
    (lock_failed (trace_of memory_mapped w m) = true ->
     result_of memory_mapped w m = false /\
     map fst (trace_of memory_mapped w m)
     = [HAL_QSPI_Abort; mutex_timed_lock QSPI_TIMEOUT] /\
     map fst (hal_calls (trace_of memory_mapped w m)) = [HAL_QSPI_Abort]).
Proof.
  intros h w m address buff count which. cbv zeta.
  repeat apply conj; unfold_driver;
    repeat first
      [ ask_world
      | match goal with
        | |- context [Z.land ?x 2 =? 0] =>
            destruct (Z.land x 2 =? 0) eqn:Hqe; cbn [fst snd this log negb]
        end ];
    tidy_log; intros Hfail; try discriminate Hfail;
    repeat split; reflexivity.
Qed.

Lemma lock_timeout_leaves_hardware_alone_witness :
  trace_of (page_write (h := jedec_header) 0x1000 0x20000000 16)
    lock_times_out power_on = [(mutex_timed_lock 100, false)] /\
  map fst (trace_of (memory_mapped (h := jedec_header)) lock_times_out
             power_on)
  = [HAL_QSPI_Abort; mutex_timed_lock 100].
Proof.
  pose proof (lock_timeout_leaves_hardware_alone jedec_header lock_times_out
                power_on 0x1000 0x20000000 16 0x20) as H.
  cbv zeta in H. destruct H as (_ & _ & _ & _ & Hpw & Hmm).
  split.
  - apply Hpw. reflexivity.
  - apply Hmm. reflexivity.
Defined.

(** ** The vendor object *)

Lemma objects_constructed_snoc l e :
  objects_constructed (l ++ [e])
  = (objects_constructed l
     + match fst e with new_qspi_winbond => 1 | _ => 0 end)%nat.
Proof.
  unfold objects_constructed. rewrite filter_app, length_app. cbn.
  destruct (fst e); reflexivity.
Qed.

(** C4.  [get_ID_data] builds a new [qspi_winbond] on every call made while
    the identity is valid, and points [pimpl] at it, dropping the object
    built by the call before: after one successful identification, two
    identity queries have constructed two objects. *)
Theorem get_ID_data_constructs_on_every_query :
  (forall (w : world) (m : machine) (a b c : Z),
      valid_mem_ID (this m) = true ->
      let m' := state_after (get_ID_data a b c) w m in
      objects_constructed (log m') = S (objects_constructed (log m)) /\
      pimpl (this m') = Some (objects_constructed (log m))) /\
  (let identified :=
     state_after (read_JEDEC_ID (h := jedec_header)) all_ok power_on in
   let queried_once := state_after (get_ID_data 0 0 0) all_ok identified in
   let queried_twice := state_after (get_ID_data 0 0 0) all_ok queried_once in
   result_of (read_JEDEC_ID (h := jedec_header)) all_ok power_on = true /\
   objects_constructed (log identified) = 0%nat /\
   objects_constructed (log queried_once) = 1%nat /\
   pimpl (this queried_once) = Some 0%nat /\
   objects_constructed (log queried_twice) = 2%nat /\
   pimpl (this queried_twice) = Some 1%nat).
Proof.
  split.
  - intros w m a b c Hvalid m'. subst m'. unfold_driver.
    rewrite Hvalid. cbn [fst snd this log pimpl].
    rewrite objects_constructed_snoc. cbn [fst]. split; [lia|reflexivity].
  - cbv zeta. repeat split; reflexivity.
Qed.

Lemma get_ID_data_constructs_on_every_query_witness :
  objects_constructed
    (log (state_after (get_ID_data 0 0 0) all_ok
            (mkMachine (mkQspi 0xEF 0x40 0x18 true (Some 0%nat))
               [(new_qspi_winbond, true)]))) = 2%nat.
Proof.
  destruct get_ID_data_constructs_on_every_query as [Hevery _].
  apply (Hevery all_ok
           (mkMachine (mkQspi 0xEF 0x40 0x18 true (Some 0%nat))
              [(new_qspi_winbond, true)]) 0 0 0).
  reflexivity.
Defined.

(** * Further properties of the driver *)

(** [run_driver] for [mode_quad], which also branches on the byte read. *)
Ltac run_mode_quad :=
  unfold_driver;
  repeat first
    [ ask_world
    | match goal with
      | |- context [Z.land ?x 2 =? 0] =>
          destruct (Z.land x 2 =? 0) eqn:Hqe; cbn [fst snd this log negb]
      end ];
  tidy_log.

(** ** The mutex *)

(** X1.  Whatever the hardware and the RTOS answer, each of the six
    operations that take the mutex respects it: it asks for it exactly
    once; if it obtains it, it keeps it to its last call, the one
    [unlock] it makes; every command, transfer and wait is made while it
    holds it (only [HAL_QSPI_Abort] is ever called without it); and the
    mutex is released when the operation returns.  [memory_mapped] makes
    one call, [HAL_QSPI_Abort], before it asks; the others ask first. *)
Theorem operations_are_serialized :
  forall (h : qspi_flash_h) (w : world) (m : machine)
         (address buff count which : Z),
    let disciplined (t : list event) :=
      serialized false t = true /\
      lock_requests t = 1%nat /\
      unlocks t = (if lock_failed t then 0 else 1)%nat /\
      ends_with_unlock t = negb (lock_failed t) in
    (disciplined (trace_of read_JEDEC_ID w m) /\
     held_from_start_to_end (trace_of read_JEDEC_ID w m) = true) /\
    (disciplined (trace_of (erase address which) w m) /\
     held_from_start_to_end (trace_of (erase address which) w m) = true) /\
    (disciplined (trace_of mode_quad w m) /\
     held_from_start_to_end (trace_of mode_quad w m) = true) /\
    (disciplined (trace_of memory_mapped w m) /\
     map fst (firstn 1 (trace_of memory_mapped w m)) = [HAL_QSPI_Abort] /\
     held_from_start_to_end (skipn 1 (trace_of memory_mapped w m)) = true) /\
    (disciplined (trace_of (read address buff count) w m) /\
     held_from_start_to_end (trace_of (read address buff count) w m) = true) /\
    (disciplined (trace_of (page_write address buff count) w m) /\
     held_from_start_to_end (trace_of (page_write address buff count) w m)
     = true).
Proof.
  intros h w m address buff count which. cbv zeta.
  repeat apply conj; run_mode_quad; reflexivity.
Qed.

(** X2.  The driver waits for a completion exactly when it has started an
    interrupt-driven transfer: in every run of the six operations each
    accepted [HAL_QSPI_Receive_IT] or [HAL_QSPI_AutoPolling_IT] is followed
    at once by one wait on the semaphore, and no wait happens otherwise;
    [mode_quad] and [memory_mapped] never wait. *)
Theorem completions_are_awaited :
  forall (h : qspi_flash_h) (w : world) (m : machine)
         (address buff count which : Z),
    completion_paired false (trace_of read_JEDEC_ID w m) = true /\
    completion_paired false (trace_of (erase address which) w m) = true /\
    completion_paired false (trace_of (read address buff count) w m) = true /\
    completion_paired false (trace_of (page_write address buff count) w m) = true /\
    waits (trace_of mode_quad w m) = [] /\
    waits (trace_of memory_mapped w m) = [].
Proof.
  intros h w m address buff count which.
  repeat apply conj; run_mode_quad; reflexivity.
Qed.

(** ** Results *)

(** X3.  No failure is swallowed and none is invented: [erase],
    [mode_quad], [memory_mapped], [read] and [page_write] return [false]
    exactly when one of the calls whose status they test (every call but
    [HAL_QSPI_Abort] and [unlock]) has failed. *)
Theorem result_reports_first_failure :
  forall (h : qspi_flash_h) (w : world) (m : machine)
         (address buff count which : Z),
    let faithful (op : M bool) :=
      result_of op w m = negb (tested_call_failed (trace_of op w m)) in
    faithful (erase address which) /\
    faithful mode_quad /\
    faithful memory_mapped /\
    faithful (read address buff count) /\
    faithful (page_write address buff count).
Proof.
  intros h w m address buff count which. cbv zeta.
  repeat apply conj; run_mode_quad; reflexivity.
Qed.

(** X4.  Only identification writes to the [qspi] object: [erase],
    [mode_quad], [memory_mapped], [read] and [page_write] leave its
    identity, its valid flag and [pimpl] as they were, and construct no
    object. *)
Theorem operations_leave_object_alone :
  forall (h : qspi_flash_h) (w : world) (m : machine)
         (address buff count which : Z),
    let frame (op : M bool) :=
      this (state_after op w m) = this m /\
      objects_constructed (trace_of op w m) = 0%nat in
    frame (erase address which) /\
    frame mode_quad /\
    frame memory_mapped /\
    frame (read address buff count) /\
    frame (page_write address buff count).
Proof.
  intros h w m address buff count which. cbv zeta.
  repeat apply conj; run_mode_quad; reflexivity.
Qed.

(** ** Order of the commands *)

(** X5.  Nothing is programmed or erased without write enable: in every run
    of [page_write] and of [erase] the first command is [WRITE_ENABLE], and
    the program (or erase) command is issued only once that command was
    accepted; [page_write] hands over its data only after the program
    command was accepted, and both poll the status register only after
    everything before was accepted. *)
Theorem write_enable_comes_first :
  forall (h : qspi_flash_h) (w : world) (m : machine)
         (address buff count which : Z),
    let tp := trace_of (page_write address buff count) w m in
    let te := trace_of (erase address which) w m in
    (command_results tp = [] \/
     command_results tp = [(Some WRITE_ENABLE, false)] \/
     exists ok, command_results tp
                = [(Some WRITE_ENABLE, true); (Some QUAD_PAGE_PROGRAM, ok)]) /\
    (forall src tm ok, In (HAL_QSPI_Transmit src tm, ok) tp ->
       src = caller_buffer buff /\
       command_results tp
       = [(Some WRITE_ENABLE, true); (Some QUAD_PAGE_PROGRAM, true)]) /\
    (forall c cfg ok, In (HAL_QSPI_AutoPolling_IT c cfg, ok) tp ->
       In (HAL_QSPI_Transmit (caller_buffer buff) QSPI_TIMEOUT, true) tp) /\
    (command_results te = [] \/
     command_results te = [(Some WRITE_ENABLE, false)] \/
     exists ok, command_results te
                = [(Some WRITE_ENABLE, true); (Some which, ok)]) /\
    (forall c cfg ok, In (HAL_QSPI_AutoPolling_IT c cfg, ok) te ->
       command_results te = [(Some WRITE_ENABLE, true); (Some which, true)]).
Proof.
  intros h w m address buff count which. cbv zeta.
  repeat apply conj.
  - run_driver; cbn [command_results Instruction set_Instruction];
      solve [ left; reflexivity | right; left; reflexivity
            | right; right; eexists; reflexivity ].
  - run_driver; intros src tm ok Hin; failing_call; split; reflexivity.
  - run_driver; intros c cfg ok Hin; failing_call;
      cbn [In]; repeat (first [left; reflexivity | right]).
  - run_driver; cbn [command_results Instruction set_Instruction];
      solve [ left; reflexivity | right; left; reflexivity
            | right; right; eexists; reflexivity ].
  - run_driver; intros c cfg ok Hin; failing_call; reflexivity.
Qed.

(** ** Entering quad mode *)

Lemma quad_enable_clear x :
  Z.testbit x 1 = false -> (Z.land (uint8 x) 2 =? 0) = true.
Proof.
  intros Hbit. apply Z.eqb_eq. apply Z.bits_inj'. intros i Hi.
  rewrite Z.land_spec, Z.bits_0.
  destruct (Z.eq_dec i 1) as [->|Hne].
  - unfold uint8. rewrite Z.mod_pow2_bits_low by lia. rewrite Hbit.
    reflexivity.
  - replace (Z.testbit 2 i) with false; [apply andb_false_r|].
    symmetry. change 2 with (2 ^ 1). apply Z.pow2_bits_false. lia.
Qed.

Lemma set_quad_enable_bits status :
  0 <= status < 256 ->
  let v := uint8 (Z.lor status 2) in
  0 <= v < 256 /\
  Z.testbit v 1 = true /\
  (forall i, 0 <= i -> i <> 1 -> Z.testbit v i = Z.testbit status i).
Proof.
  intros Hs v. subst v.
  assert (Hv : 0 <= uint8 (Z.lor status 2) < 256).
  { unfold uint8. apply Z.mod_pos_bound. lia. }
  assert (Hbits : forall i, 0 <= i ->
            Z.testbit (uint8 (Z.lor status 2)) i
            = Z.testbit status i || Z.testbit 2 i).
  { intros i Hi. unfold uint8.
    destruct (Z.lt_ge_cases i 8) as [Hlt|Hge].
    - rewrite Z.mod_pow2_bits_low by lia. apply Z.lor_spec.
    - rewrite Z.mod_pow2_bits_high by lia.
      replace (Z.testbit status i) with false.
      + replace (Z.testbit 2 i) with false; [reflexivity|].
        symmetry. change 2 with (2 ^ 1). apply Z.pow2_bits_false. lia.
      + symmetry. destruct (Z.eq_dec status 0) as [->|Hnz];
          [apply Z.bits_0|].
        apply Z.bits_above_log2; [lia|].
        assert (Z.log2 status < 8); [|lia].
        apply Z.log2_lt_pow2; lia. }
  split; [exact Hv|]. split.
  - rewrite Hbits by lia. apply orb_true_r.
  - intros i Hi Hne. rewrite Hbits by lia.
    replace (Z.testbit 2 i) with false; [apply orb_false_r|].
    symmetry. change 2 with (2 ^ 1). apply Z.pow2_bits_false. lia.
Qed.

(** X6.  When status register 2 is read with the quad-enable bit clear,
    [mode_quad] always goes on to the volatile write enable and only then to
    the write of status register 2.  The byte it writes back is the byte it
    read with bit 1 set and every other bit as read.  It returns [true]
    only after the three commands and the transmit were all accepted. *)
Theorem mode_quad_sets_only_quad_enable :
  forall (h : qspi_flash_h) (w : world) (m : machine),
    let t := trace_of mode_quad w m in
    map snd (firstn 3 t) = [true; true; true] ->
    Z.testbit (received w (log m ++ firstn 3 t) 0) 1 = false ->
    let status := uint8 (received w (log m ++ firstn 3 t) 0) in
    (command_results t
     = [(Some READ_STATUS_REGISTER_2, true);
        (Some VOLATILE_SR_WRITE_ENABLE, false)] \/
     exists ok,
       command_results t
       = [(Some READ_STATUS_REGISTER_2, true);
          (Some VOLATILE_SR_WRITE_ENABLE, true);
          (Some WRITE_STATUS_REGISTER_2, ok)]) /\
    (forall v, In v (datareg_sent t) ->
       v = uint8 (Z.lor status 2) /\
       0 <= v < 256 /\
       Z.testbit v 1 = true /\
       (forall i, 0 <= i -> i <> 1 -> Z.testbit v i = Z.testbit status i)) /\
    (result_of mode_quad w m = true ->
     command_results t
     = [(Some READ_STATUS_REGISTER_2, true);
        (Some VOLATILE_SR_WRITE_ENABLE, true);
        (Some WRITE_STATUS_REGISTER_2, true)] /\
     datareg_sent t = [uint8 (Z.lor status 2)] /\
     In (HAL_QSPI_Transmit (local_datareg (uint8 (Z.lor status 2)))
           QSPI_TIMEOUT, true) t).
Proof.
  intros h w m. cbv zeta. run_mode_quad.
  all: repeat rewrite <- app_assoc in *; cbn [app] in *.
  all: cbn [firstn map snd]; intros Hfirst Hbit; try discriminate Hfirst.
  all: try (exfalso; apply quad_enable_clear in Hbit;
            exact (eq_true_false_abs _ Hbit Hqe)).
  all: cbn [command_results datareg_sent Instruction set_Instruction].
  all: repeat apply conj;
    try solve [ left; reflexivity | right; eexists; reflexivity
              | intros Hres; discriminate Hres
              | intros v [] ].
  all: try (intros _; repeat apply conj;
            [reflexivity | reflexivity
            | cbn [In]; repeat (first [left; reflexivity | right])]).
  all: intros v [<-|[]];
    match goal with
    | |- context [Z.lor (uint8 ?x) 2] =>
        pose proof (set_quad_enable_bits (uint8 x)
                      (Z.mod_pos_bound x (2 ^ 8) eq_refl)) as Hset
    end;
    cbv zeta in Hset; destruct Hset as (Hr & Hb & Ho);
    repeat apply conj; [reflexivity | apply Hr | apply Hr | exact Hb | exact Ho].
Qed.

Lemma mode_quad_sets_only_quad_enable_witness :
  datareg_sent (trace_of (mode_quad (h := jedec_header)) quad_disabled
                  power_on) = [uint8 (Z.lor (uint8 0x40) 2)].
Proof.
  apply (mode_quad_sets_only_quad_enable jedec_header quad_disabled power_on);
    reflexivity.
Defined.

(** ** Identity queries *)

Lemma get_ID_data_invalid (w : world) (m : machine) (a b c : Z) :
  valid_mem_ID (this m) = false ->
  get_ID_data a b c w m = ((false, (a, b, c)), m).
Proof.
  destruct m as [q l]. cbn [this]. intros Hvalid. unfold_driver.
  rewrite Hvalid. reflexivity.
Qed.

(** X7.  Without a valid identity [get_ID_data] does nothing: it returns
    [false], leaves the caller's three variables as they were, constructs
    no object and leaves the [qspi] object and the log untouched. *)
Theorem get_ID_data_needs_identity :
  forall (w : world) (m : machine) (a b c : Z),
    valid_mem_ID (this m) = false ->
    run (get_ID_data a b c) w m = ((false, (a, b, c)), m).
Proof. intros w m a b c. apply get_ID_data_invalid. Qed.

Lemma get_ID_data_needs_identity_witness :
  run (get_ID_data 1 2 3) all_ok power_on = ((false, (1, 2, 3)), power_on).
Proof.
  apply (get_ID_data_needs_identity all_ok power_on 1 2 3). reflexivity.
Defined.

(** X8.  Identification and query compose: after a [read_JEDEC_ID] that
    returned [true], [get_ID_data] returns [true] and hands back the three
    bytes that were received, whatever the caller's variables held; after a
    [read_JEDEC_ID] that returned [false] on an object without a valid
    identity, [get_ID_data] still returns [false] and hands back the
    caller's values. *)
Theorem identify_then_query :
  forall (h : qspi_flash_h) (w : world) (m : machine) (a b c : Z),
    let identified := state_after read_JEDEC_ID w m in
    let seen := log m ++ removelast (trace_of read_JEDEC_ID w m) in
    (result_of read_JEDEC_ID w m = true ->
     result_of (get_ID_data a b c) w identified
     = (true, (uint8 (received w seen 0), uint8 (received w seen 1),
               uint8 (received w seen 2)))) /\
    (result_of read_JEDEC_ID w m = false ->
     valid_mem_ID (this m) = false ->
     result_of (get_ID_data a b c) w identified = (false, (a, b, c)) /\
     objects_constructed (trace_of (get_ID_data a b c) w identified) = 0%nat).
Proof.
  intros h w m a b c. cbv zeta. split.
  - run_driver; intros Hres; try discriminate Hres.
    all: cbn [valid_mem_ID manufacturer_ID_ memory_type_ memory_capacity_
              fst snd this log removelast]; reflexivity.
  - intros Hres Hvalid.
    assert (Hstill : valid_mem_ID
                       (this (state_after read_JEDEC_ID w m)) = false).
    { revert Hres. run_driver; intros Hres; try discriminate Hres;
        exact Hvalid. }
    unfold result_of, trace_of.
    rewrite (get_ID_data_invalid w _ a b c Hstill). cbn [fst snd].
    rewrite skipn_all. split; reflexivity.
Qed.

Lemma identify_then_query_witness :
  result_of (get_ID_data 0 0 0) all_ok
    (state_after (read_JEDEC_ID (h := jedec_header)) all_ok power_on)
  = (true, (0xEF, 0x40, 0x18)).
Proof.
  pose proof (identify_then_query jedec_header all_ok power_on 0 0 0) as H.
  cbv zeta in H. destruct H as [H _].
  rewrite (H eq_refl). reflexivity.
Defined.

(** ** [qspi::write], further *)

Lemma write_loop_progress address count :
  let n := Z.min count (256 - Z.land address 0xFF) in
  uint32 (count - n) <> 0 -> 0 <= uint32 (count - n) < count.
Proof.
  intros n Hmore. subst n.
  pose proof (low_byte_range address) as Hlow.
  destruct (Z.le_gt_cases count (256 - Z.land address 255)) as [Hle|Hgt].
  - rewrite Z.min_l in Hmore by lia. rewrite Z.sub_diag in Hmore.
    now elim Hmore.
  - rewrite Z.min_r in * by lia.
    assert (0 <= uint32 (count - (256 - Z.land address 255))
            <= count - (256 - Z.land address 255)).
    { unfold uint32. split; [apply Z.mod_pos_bound; lia|].
      apply Z.mod_le; lia. }
    lia.
Qed.

(** Whatever [page_write] is, as long as each call only appends to the log
    and leaves the object alone, [write]'s loop appends the logs of one or
    more calls, one after the other. *)
Lemma write_loop_blocks (pw : Z -> Z -> Z -> M bool) (Step : list event -> Prop)
      (w : world) :
  (forall a b n m, exists evs,
      log (snd (pw a b n w m)) = log m ++ evs /\
      this (snd (pw a b n w m)) = this m /\ Step evs) ->
  forall count address buff m, exists blocks,
    log (snd (write_loop pw address buff count w m))
    = log m ++ concat blocks /\
    this (snd (write_loop pw address buff count w m)) = this m /\
    Forall Step blocks /\ blocks <> [].
Proof.
  intros Hpw count.
  induction count as [count IH] using (well_founded_induction (Z.lt_wf 0)).
  intros address buff m.
  rewrite write_loop_step. cbv zeta.
  pose proof (write_loop_progress address count) as Hprog. cbv zeta in Hprog.
  set (n := Z.min count (256 - Z.land address 255)) in *.
  destruct (Hpw address buff n m) as (evs & Hlog & Hthis & Hstep).
  destruct (pw address buff n w m) as [ok m1]. cbn [snd] in Hlog, Hthis.
  destruct ok; cbn [negb].
  - destruct (Z.eqb_spec (uint32 (count - n)) 0) as [Hz|Hz].
    + exists [evs]. cbn [concat snd]. rewrite app_nil_r.
      repeat split; auto. discriminate.
    + destruct (IH (uint32 (count - n)) (Hprog Hz) (uint32 (address + n))
                  (buff + n) m1) as (blocks & Hlog' & Hthis' & Hall & _).
      exists (evs :: blocks). cbn [concat].
      rewrite Hlog', Hthis', Hlog, Hthis, app_assoc.
      repeat split; auto. discriminate.
  - exists [evs]. cbn [concat snd]. rewrite app_nil_r.
    repeat split; auto. discriminate.
Qed.

Lemma serialized_app t1 :
  forall held t2,
    serialized held t1 = true ->
    serialized held (t1 ++ t2) = serialized false t2.
Proof.
  induction t1 as [|[c ok] t1 IH]; intros held t2 H.
  - cbn in *. destruct held; [discriminate|reflexivity].
  - cbn [app]. destruct c; cbn [serialized] in *;
      try (destruct held; cbn [negb andb] in *; try discriminate;
           now apply IH).
Qed.

Lemma completion_paired_app t1 :
  forall pending t2,
    completion_paired pending t1 = true ->
    completion_paired pending (t1 ++ t2) = completion_paired false t2.
Proof.
  induction t1 as [|[c ok] t1 IH]; intros pending t2 H.
  - cbn in *. destruct pending; [discriminate|reflexivity].
  - cbn [app completion_paired] in *.
    destruct pending.
    + destruct (is_wait c); cbn [andb] in *; [now apply IH|discriminate].
    + destruct (is_wait c); [discriminate|]. now apply IH.
Qed.

Lemma objects_constructed_app t1 t2 :
  objects_constructed (t1 ++ t2)
  = (objects_constructed t1 + objects_constructed t2)%nat.
Proof. unfold objects_constructed. now rewrite filter_app, length_app. Qed.

Lemma page_write_well_behaved (h : qspi_flash_h) (w : world) :
  forall a b n m, exists evs,
    log (snd (page_write a b n w m)) = log m ++ evs /\
    this (snd (page_write a b n w m)) = this m /\
    (one_page_scope evs /\ well_behaved evs).
Proof.
  intros a b n m. unfold well_behaved, one_page_scope. unfold_driver.
  repeat ask_world.
  all: repeat rewrite <- app_assoc; cbn [app].
  all: eexists; split; [reflexivity|]; repeat split;
    solve [reflexivity | cbn; lia].
Qed.

Lemma well_behaved_concat blocks :
  Forall well_behaved blocks -> well_behaved (concat blocks).
Proof.
  induction 1 as [|evs blocks (Hs & Hc & Ho) _ (IHs & IHc & IHo)].
  - repeat split; reflexivity.
  - cbn [concat]. repeat split.
    + rewrite (serialized_app _ _ _ Hs). exact IHs.
    + rewrite (completion_paired_app _ _ _ Hc). exact IHc.
    + rewrite objects_constructed_app, Ho, IHo. reflexivity.
Qed.

Lemma lock_requests_app t1 t2 :
  lock_requests (t1 ++ t2) = (lock_requests t1 + lock_requests t2)%nat.
Proof. unfold lock_requests. now rewrite filter_app, length_app. Qed.

Lemma lock_requests_concat blocks :
  Forall one_page_scope blocks ->
  lock_requests (concat blocks) = length blocks.
Proof.
  induction 1 as [|evs blocks (_ & Hone & _) _ IH]; [reflexivity|].
  cbn [concat length]. rewrite lock_requests_app, Hone, IH. reflexivity.
Qed.

(** X9.  [write] composed with the Winbond [page_write], for every address,
    buffer and count (0 included) and whatever the hardware answers: the
    first call is [HAL_QSPI_Abort], and what follows is one lock scope per
    page attempted, one after the other.  In each scope the mutex is asked
    for once and, if obtained, kept to the scope's last call, the
    [unlock], with every other call of the page (its failure abort
    included) in between; a scope holds at most one write enable and one
    program command and at most one page of data.  So the leading abort is
    the only call made without the mutex, the mutex is released between
    pages and on return, every accepted auto-polling is awaited, no object
    is constructed and the [qspi] object is left as it was. *)
Theorem write_pages_are_serialized :
  forall (h : qspi_flash_h) (w : world) (m : machine) (address buff count : Z),
    let t := trace_of (write page_write address buff count) w m in
    (exists aborted scopes,
        t = (HAL_QSPI_Abort, aborted) :: concat scopes /\
        scopes <> [] /\
        Forall one_page_scope scopes /\
        lock_requests t = length scopes) /\
    serialized false t = true /\
    completion_paired false t = true /\
    objects_constructed t = 0%nat /\
    this (state_after (write page_write address buff count) w m) = this m.
Proof.
  intros h w m address buff count t.
  set (m1 := mkMachine (this m)
               (log m ++ [(HAL_QSPI_Abort, status w (log m) HAL_QSPI_Abort)])).
  destruct (write_loop_blocks page_write
              (fun evs => one_page_scope evs /\ well_behaved evs) w
              (page_write_well_behaved h w) count address buff m1)
    as (blocks & Hlog & Hthis & Hall & Hsome).
  assert (Hscopes : Forall one_page_scope blocks).
  { eapply Forall_impl; [|exact Hall]. intros evs [H _]. exact H. }
  assert (Hwell : Forall well_behaved blocks).
  { eapply Forall_impl; [|exact Hall]. intros evs [_ H]. exact H. }
  apply well_behaved_concat in Hwell. destruct Hwell as (Hs & Hc & Ho).
  assert (Ht : t = (HAL_QSPI_Abort, status w (log m) HAL_QSPI_Abort)
                   :: concat blocks).
  { subst t. unfold trace_of, write, bind, env. cbv zeta. fold m1.
    rewrite Hlog. subst m1. cbn [log]. tidy_log. reflexivity. }
  split.
  - exists (status w (log m) HAL_QSPI_Abort), blocks.
    split; [exact Ht|]. split; [exact Hsome|]. split; [exact Hscopes|].
    rewrite Ht. exact (lock_requests_concat blocks Hscopes).
  - rewrite Ht. cbn [serialized completion_paired is_wait starts_transfer
                     andb].
    repeat split; auto.
Qed.

Lemma write_loop_results (w : world) :
  forall count address buff m, exists evs k,
    log (snd (write_loop page_write_logged address buff count w m))
    = log m ++ evs /\
    page_write_results evs
    = repeat true k
      ++ [fst (write_loop page_write_logged address buff count w m)] /\
    length (page_write_calls evs) = S k.
Proof.
  intros count.
  induction count as [count IH] using (well_founded_induction (Z.lt_wf 0)).
  intros address buff m.
  rewrite write_loop_logged_step. cbv zeta.
  pose proof (write_loop_progress address count) as Hprog. cbv zeta in Hprog.
  set (n := Z.min count (256 - Z.land address 255)) in *.
  destruct (status w (log m) (qspi_page_write address buff n)).
  - destruct (Z.eqb_spec (uint32 (count - n)) 0) as [Hz|Hz].
    + exists [(qspi_page_write address buff n, true)], 0%nat.
      repeat split; reflexivity.
    + set (m1 := mkMachine (this m)
                   (log m ++ [(qspi_page_write address buff n, true)])).
      destruct (IH (uint32 (count - n)) (Hprog Hz) (uint32 (address + n))
                  (buff + n) m1) as (evs & k & Hlog & Hres & Hlen).
      exists ((qspi_page_write address buff n, true) :: evs), (S k).
      rewrite Hlog. subst m1. cbn [log]. rewrite <- app_assoc.
      cbn [app page_write_results page_write_calls repeat length].
      rewrite Hres, Hlen. repeat split; reflexivity.
  - exists [(qspi_page_write address buff n, false)], 0%nat.
    repeat split; reflexivity.
Qed.

(** X10.  [write] stops at the first page that fails: for every address,
    buffer and count, every [page_write] call but the last returned [true],
    [write] returns what the last call returned, and it makes at least one
    call. *)
Theorem write_stops_at_first_failing_page :
  forall (w : world) (m : machine) (address buff count : Z),
    let t := trace_of (write page_write_logged address buff count) w m in
    exists k,
      page_write_results t
      = repeat true k
        ++ [result_of (write page_write_logged address buff count) w m] /\
      length (page_write_calls t) = S k.
Proof.
  intros w m address buff count t.
  set (m1 := mkMachine (this m)
               (log m ++ [(HAL_QSPI_Abort, status w (log m) HAL_QSPI_Abort)])).
  destruct (write_loop_results w count address buff m1)
    as (evs & k & Hlog & Hres & Hlen).
  assert (Ht : t = (HAL_QSPI_Abort, status w (log m) HAL_QSPI_Abort) :: evs).
  { subst t. unfold trace_of, write, bind, env. cbv zeta. fold m1.
    rewrite Hlog. subst m1. cbn [log]. tidy_log. reflexivity. }
  exists k. rewrite Ht. cbn [page_write_results page_write_calls].
  split; [exact Hres | exact Hlen].
Qed.

Lemma next_page_is_aligned a :
  Z.land (uint32 (a + (256 - Z.land a 0xFF))) 0xFF = 0.
Proof.
  change 0xFF with (Z.ones 8). rewrite !Z.land_ones by lia.
  change (2 ^ 8) with 256. unfold uint32.
  rewrite Z.mod_mod_divide by (exists (2 ^ 24); reflexivity).
  pose proof (Z.div_mod a 256 ltac:(lia)) as Ha.
  replace (a + (256 - a mod 256)) with ((a / 256 + 1) * 256) by lia.
  apply Z.mod_mul. lia.
Qed.

Lemma tiling_length :
  forall cs a b c,
    0 <= c ->
    tiling a b c cs ->
    Z.of_nat (length cs) <= (Z.land a 0xFF + c + 255) / 256 /\
    (total_count cs = c -> 1 <= c ->
     Z.of_nat (length cs) = (Z.land a 0xFF + c + 255) / 256).
Proof.
  induction cs as [|c0 cs IH]; intros a b c Hc Ht.
  - pose proof (low_byte_range a) as Hlow. cbn [length]. split.
    + apply Z.div_pos; lia.
    + unfold total_count. cbn. lia.
  - destruct Ht as (Hpos & _ & _ & Hn & Hrest).
    pose proof (low_byte_range a) as Hlow.
    destruct (Z.le_gt_cases c (256 - Z.land a 255)) as [Hle|Hgt].
    + rewrite Z.min_l in Hn by lia. rewrite Hn, Z.sub_diag in Hrest.
      destruct cs as [|c1 cs]; [|cbn in Hrest; lia].
      cbn [length].
      assert (E : (Z.land a 255 + c + 255) / 256 = 1).
      { symmetry.
        apply Z.div_unique with (r := Z.land a 255 + c + 255 - 256); lia. }
      rewrite E. split; [lia|]. intros _ _. reflexivity.
    + rewrite Z.min_r in Hn by lia. rewrite Hn in Hrest.
      apply IH in Hrest; [|lia]. rewrite next_page_is_aligned in Hrest.
      destruct Hrest as [Hub Heq].
      assert (E : (Z.land a 255 + c + 255) / 256
                  = (0 + (c - (256 - Z.land a 255)) + 255) / 256 + 1).
      { rewrite <- (Z.div_add _ 1 256) by lia. f_equal. lia. }
      rewrite E. cbn [length]. rewrite Nat2Z.inj_succ. split; [lia|].
      intros Htot _. unfold total_count in *. cbn [map fold_right] in Htot.
      rewrite Heq; lia.
Qed.

(** X11.  The number of pages: for a count of at least 1, [write] makes at
    least one and at most [(count + (address & 0xFF) + 255) / 256] calls to
    [page_write], and exactly that many when it returns [true]: one call
    per 256-byte page that the range touches. *)
Theorem write_touches_each_page_once :
  forall (w : world) (m : machine) (address buff count : Z),
    0 <= address < 2 ^ 32 ->
    1 <= count < 2 ^ 32 ->
    let cs := page_write_calls
                (trace_of (write page_write_logged address buff count) w m) in
    let pages := (Z.land address 0xFF + count + 255) / 256 in
    1 <= Z.of_nat (length cs) <= pages /\
    (result_of (write page_write_logged address buff count) w m = true ->
     Z.of_nat (length cs) = pages).
Proof.
  intros w m address buff count Haddr Hcount cs pages.
  set (m1 := mkMachine (this m)
               (log m ++ [(HAL_QSPI_Abort, status w (log m) HAL_QSPI_Abort)])).
  destruct (write_loop_tiles w count ltac:(lia) address buff m1 Hcount)
    as (evs & Hlog & _ & Hsome & Htile & _ & Htot).
  assert (Hcs : cs = page_write_calls evs).
  { subst cs. unfold trace_of, write, bind, env. cbv zeta. fold m1.
    rewrite Hlog. subst m1. cbn [log]. tidy_log. reflexivity. }
  destruct (tiling_length (page_write_calls evs) address buff count
              ltac:(lia) Htile) as [Hub Heq].
  rewrite Hcs. subst pages. split.
  - split; [|exact Hub]. destruct (page_write_calls evs); [congruence|].
    cbn [length]. lia.
  - intros Hres. apply Heq; [|lia]. apply Htot. exact Hres.
Qed.

Lemma write_touches_each_page_once_witness :
  Z.of_nat
    (length (page_write_calls
               (trace_of (write page_write_logged 0x0F0 0x20000000 600)
                  all_ok power_on)))
  = (Z.land 0x0F0 0xFF + 600 + 255) / 256.
Proof.
  apply (write_touches_each_page_once all_ok power_on 0x0F0 0x20000000 600);
    try lia.
  reflexivity.
Defined.





(** ** Reading *)

(** X13.  The two ways of reading the flash use one encoding: the command
    [read] issues and the command [memory_mapped] configures are the same
    descriptor (FAST_READ_QUAD_OUT, 1-line 24-bit address, 4-line data, 6
    dummy cycles), [read] adding only its address and its byte count;
    [memory_mapped] disables the time-out counter. *)
Theorem read_and_memory_map_share_encoding :
  forall (h : qspi_flash_h) (w w' : world) (m m' : machine)
         (address buff count : Z)
         (c c' : QSPI_CommandTypeDef) (cfg : QSPI_MemoryMappedTypeDef)
         (tm : Z) (ok ok' : bool),
    In (HAL_QSPI_Command c tm, ok) (trace_of (read address buff count) w m) ->
    In (HAL_QSPI_MemoryMapped c' cfg, ok') (trace_of memory_mapped w' m') ->
    c = c' <| set_Address address <| set_NbData count /\
    Address c' = None /\ NbData c' = None /\
    Instruction c' = Some FAST_READ_QUAD_OUT /\
    AddressMode c' = Some QSPI_ADDRESS_1_LINE /\
    AddressSize c' = Some QSPI_ADDRESS_24_BITS /\
    DataMode c' = Some QSPI_DATA_4_LINES /\
    DummyCycles c' = Some 6 /\
    TimeOutActivation cfg = Some QSPI_TIMEOUT_COUNTER_DISABLE.
Proof.
  intros h w w' m m' address buff count c c' cfg tm ok ok'.
  run_driver; rewrite ?skipn_own_length;
    intros Hin Hin'; failing_call; repeat split; reflexivity.
Qed.

Lemma read_and_memory_map_share_encoding_witness :
  match nth_error (trace_of (read (h := jedec_header) 0x1000 0x20000000 64)
                     all_ok power_on) 2,
        nth_error (trace_of (memory_mapped (h := jedec_header)) all_ok
                     power_on) 2
  with
  | Some (HAL_QSPI_Command c _, _), Some (HAL_QSPI_MemoryMapped c' _, _) =>
      c = c' <| set_Address 0x1000 <| set_NbData 64
  | _, _ => False
  end.
Proof.
  set (tr := trace_of (read (h := jedec_header) 0x1000 0x20000000 64) all_ok
               power_on).
  set (tm := trace_of (memory_mapped (h := jedec_header)) all_ok power_on).
  assert (Hr : exists c, nth_error tr 2 = Some (HAL_QSPI_Command c 100, true)).
  { eexists. reflexivity. }
  assert (Hm : exists c' cfg,
             nth_error tm 2 = Some (HAL_QSPI_MemoryMapped c' cfg, true)).
  { do 2 eexists. reflexivity. }
  destruct Hr as [c Hr]. destruct Hm as (c' & cfg & Hm).
  rewrite Hr, Hm.
  apply (read_and_memory_map_share_encoding jedec_header all_ok all_ok
           power_on power_on 0x1000 0x20000000 64 c c' cfg 100 true true).
  - apply nth_error_In with (n := 2%nat). exact Hr.
  - apply nth_error_In with (n := 2%nat). exact Hm.
Defined.

(** ** Failure and time *)

(** X14.  The guarded operations abort exactly when they fail: in
    [read_JEDEC_ID], [erase], [read] and [page_write], once the mutex is
    obtained, the run always ends with its one [unlock]; the call before
    the [unlock] is [HAL_QSPI_Abort] if the operation returns [false], and
    is the wait for completion, signalled in time, if it returns [true]:
    a run that succeeds is not aborted at its end. *)
Theorem abort_exactly_on_failure :
  forall (h : qspi_flash_h) (w : world) (m : machine)
         (address buff count which : Z),
    let aborts_iff_fails (op : M bool) :=
      lock_failed (trace_of op w m) = false ->
      ends_with_unlock (trace_of op w m) = true /\
      unlocks (trace_of op w m) = 1%nat /\
      aborts_then_unlocks (trace_of op w m) = negb (result_of op w m) /\
      awaited_then_unlocks (trace_of op w m) = result_of op w m in
    aborts_iff_fails read_JEDEC_ID /\
    aborts_iff_fails (erase address which) /\
    aborts_iff_fails (read address buff count) /\
    aborts_iff_fails (page_write address buff count).
Proof.
  intros h w m address buff count which. cbv zeta.
  repeat apply conj; run_driver; intros Hlock; try discriminate Hlock;
    repeat split; reflexivity.
Qed.

Lemma abort_exactly_on_failure_witness :
  aborts_then_unlocks
    (trace_of (page_write (h := jedec_header) 0x1000 0x20000000 16)
       completion_lost power_on) = true /\
  awaited_then_unlocks
    (trace_of (page_write (h := jedec_header) 0x1000 0x20000000 16)
       all_ok power_on) = true.
Proof.
  pose proof (abort_exactly_on_failure jedec_header completion_lost power_on
                0x1000 0x20000000 16 0x20) as Hlost.
  pose proof (abort_exactly_on_failure jedec_header all_ok power_on
                0x1000 0x20000000 16 0x20) as Hok.
  cbv zeta in Hlost, Hok.
  destruct Hlost as (_ & _ & _ & Hlost). destruct Hok as (_ & _ & _ & Hok).
  split; [apply Hlost | apply Hok]; reflexivity.
Defined.

(** X15.  Every operation blocks for a bounded time: with non-negative
    time-out constants, the time-outs an operation hands to its blocking
    calls add up to at most 3 x QSPI_TIMEOUT for [read_JEDEC_ID] and
    [read], 5 x for [page_write], 6 x for [mode_quad], 1 x for
    [memory_mapped], and 3 x QSPI_TIMEOUT plus the erase bound of the
    granularity for [erase]. *)
Theorem operations_block_for_bounded_time :
  forall (h : qspi_flash_h),
    0 <= QSPI_TIMEOUT -> 0 <= QSPI_ERASE_TIMEOUT ->
    0 <= QSPI_CHIP_ERASE_TIMEOUT ->
    forall (w : world) (m : machine) (address buff count which : Z),
      timeout_budget (trace_of read_JEDEC_ID w m) <= 3 * QSPI_TIMEOUT /\
      timeout_budget (trace_of (read address buff count) w m)
      <= 3 * QSPI_TIMEOUT /\
      timeout_budget (trace_of (page_write address buff count) w m)
      <= 5 * QSPI_TIMEOUT /\
      timeout_budget (trace_of mode_quad w m) <= 6 * QSPI_TIMEOUT /\
      timeout_budget (trace_of memory_mapped w m) <= 1 * QSPI_TIMEOUT /\
      timeout_budget (trace_of (erase address which) w m)
      <= 3 * QSPI_TIMEOUT
         + (if which =? CHIP_ERASE then QSPI_CHIP_ERASE_TIMEOUT
            else QSPI_ERASE_TIMEOUT).
Proof.
  intros h Ht He Hc w m address buff count which.
  repeat apply conj; run_mode_quad; cbn [timeout_budget];
    try destruct (which =? CHIP_ERASE); lia.
Qed.

Lemma operations_block_for_bounded_time_witness :
  timeout_budget
    (trace_of (page_write (h := jedec_header) 0x1000 0x20000000 16) all_ok
       power_on) <= 5 * 100 /\
  timeout_budget
    (trace_of (erase (h := jedec_header) 0 0xC7) all_ok power_on)
  <= 3 * 100 + 200000.
Proof.
  pose proof (operations_block_for_bounded_time jedec_header ltac:(cbn; lia)
                ltac:(cbn; lia) ltac:(cbn; lia) all_ok power_on 0x1000
                0x20000000 16 0xC7) as H.
  destruct H as (_ & _ & Hpw & _ & _ & Her).
  split; [exact Hpw | exact Her].
Defined.
